(** * falleando: visit state, filters and walking route of app.js

    A shallow embedding of the core of [src/app.js]: the persisted visit
    state ([loadState], [saveState], the save handler of a popup), the
    filters ([normalize], [getSelectedSections], [applyFilters]), the marker
    loop of [renderMarkers] and the greedy route of [buildOptimizedRoute].

    JavaScript numbers are modelled by [number]: the finite ones are exact
    rationals, next to [NaN] and the two infinities.  Rounding of IEEE
    doubles is not modelled; none of the properties below rests on it. *)

From Stdlib Require Import List Bool Arith ZArith QArith Qabs Qround Lia Lqa.
From Stdlib Require Import Ascii String DecimalString Permutation.
Import ListNotations.

Set Implicit Arguments.
Set Warnings "-register-all".
#[local] Open Scope string_scope.

(** ** Numbers *)

Inductive number : Type :=
| NaN
| NInf
| Fin (q : Q)
| PInf.

(** [a < b] of the language: false as soon as one side is [NaN]. *)
Definition num_lt (a b : number) : bool :=
  match a, b with
  | NaN, _ | _, NaN => false
  | _, NInf => false
  | NInf, _ => true
  | PInf, _ => false
  | Fin _, PInf => true
  | Fin x, Fin y => match (x ?= y)%Q with Lt => true | _ => false end
  end.

(** [a > b]. *)
Definition num_gt (a b : number) : bool := num_lt b a.

(** [a + b]: exact on finite numbers. *)
Definition num_add (a b : number) : number :=
  match a, b with
  | NaN, _ | _, NaN => NaN
  | PInf, NInf | NInf, PInf => NaN
  | PInf, _ | _, PInf => PInf
  | NInf, _ | _, NInf => NInf
  | Fin x, Fin y => Fin (x + y)
  end.

(** [Number.isFinite(v)] on a value that is a number. *)
Definition isFinite (v : number) : bool :=
  match v with Fin _ => true | _ => false end.

(** [Math.min] and [Math.max]: [NaN] when an argument is [NaN]. *)
Definition Math_min (a b : number) : number :=
  match a, b with
  | NaN, _ | _, NaN => NaN
  | _, _ => if num_lt b a then b else a
  end.

Definition Math_max (a b : number) : number :=
  match a, b with
  | NaN, _ | _, NaN => NaN
  | _, _ => if num_lt a b then b else a
  end.

(** [Math.round]: the nearest integer, a tie going up. *)
Definition Math_round (v : number) : number :=
  match v with
  | Fin q => Fin (inject_Z (Qfloor (q + (1 # 2))))
  | _ => v
  end.

Definition zero : number := Fin 0.

(** ** Route builder *)

Section Route.

(** A point is whatever carries [lat] and [lng]: the origin (with its
    label) and the candidates (with their [falla_number]).  The builder
    only hands points to [distanceMeters], the haversine formula of the
    source, which is built on [Math.sin], [Math.cos], [Math.sqrt] and
    [Math.atan2] and is a parameter here. *)
Variable Point : Type.
Variable distanceMeters : Point -> Point -> number.

(** The [for] loop over [remaining]: [i] is the index of the head of
    [rest]. *)
Fixpoint scan (current : Point) (rest : list Point) (i bestIdx : nat)
         (bestDist : number) : nat * number :=
  match rest with
  | [] => (bestIdx, bestDist)
  | p :: rest' =>
      let d := distanceMeters current p in
      if num_lt d bestDist then scan current rest' (S i) i d
      else scan current rest' (S i) bestIdx bestDist
  end.

(** [let bestIdx = 0; let bestDist = Infinity; for (...) ...]. *)
Definition nearest (current : Point) (remaining : list Point) : nat * number :=
  scan current remaining 0 0 PInf.

(** [remaining.splice(idx, 1)]: the array without the element at [idx]. *)
Fixpoint splice1 (idx : nat) (l : list Point) : list Point :=
  match l, idx with
  | [], _ => []
  | _ :: l', O => l'
  | x :: l', S k => x :: splice1 k l'
  end.

(** The variables of the [while] loop. *)
Record Loop : Type := mkLoop {
  l_remaining : list Point;
  l_route : list Point;
  l_current : Point;
  l_usedMeters : number
}.

(** [Number.isFinite(maxMeters) && maxMeters > 0], then
    [usedMeters + bestDist > maxMeters]. *)
Definition over_budget (maxMeters usedMeters bestDist : number) : bool :=
  isFinite maxMeters && num_gt maxMeters zero
  && num_gt (num_add usedMeters bestDist) maxMeters.

(** One pass of the body of [while (remaining.length)]: [None] when the
    loop is left (empty [remaining], or [break]). *)
Definition step (maxMeters : number) (s : Loop) : option Loop :=
  match l_remaining s with
  | [] => None
  | _ :: _ =>
      let (bestIdx, bestDist) := nearest (l_current s) (l_remaining s) in
      if over_budget maxMeters (l_usedMeters s) bestDist then None
      else
        match nth_error (l_remaining s) bestIdx with
        | Some next =>
            Some {| l_remaining := splice1 bestIdx (l_remaining s);
                    l_route := l_route s ++ [next];
                    l_current := next;
                    l_usedMeters := num_add (l_usedMeters s) bestDist |}
        | None => None (* not reached: bestIdx < remaining.length *)
        end
  end.

(** The [while] loop; every pass removes one element of [remaining], so
    [remaining.length] passes are enough ([while_loop_done]). *)
Fixpoint while_loop (fuel : nat) (maxMeters : number) (s : Loop) : Loop :=
  match fuel with
  | O => s
  | S fuel' =>
      match step maxMeters s with
      | None => s
      | Some s' => while_loop fuel' maxMeters s'
      end
  end.

Record RouteResult : Type := mkRouteResult {
  route : list Point;
  usedMeters : number
}.

Definition route_start (origin : Point) (points : list Point) : Loop :=
  {| l_remaining := points; l_route := []; l_current := origin;
     l_usedMeters := zero |}.

Definition route_end (origin : Point) (points : list Point)
           (maxMeters : number) : Loop :=
  while_loop (List.length points) maxMeters (route_start origin points).

Definition buildOptimizedRoute (origin : Point) (points : list Point)
           (maxMeters : number) : RouteResult :=
  let s := route_end origin points maxMeters in
  {| route := l_route s; usedMeters := l_usedMeters s |}.

(** The cumulative leg distance of a path, summed in the order the loop
    sums it. *)
Fixpoint legs (current : Point) (path : list Point) (acc : number) : number :=
  match path with
  | [] => acc
  | p :: path' => legs p path' (num_add acc (distanceMeters current p))
  end.

(** [p], at index [i] of [remaining], is a nearest candidate from
    [current], and the first such. *)
Definition earliest_nearest (current : Point) (remaining : list Point)
           (i : nat) (p : Point) : Prop :=
  nth_error remaining i = Some p /\
  (forall j q, nth_error remaining j = Some q ->
               num_lt (distanceMeters current q) (distanceMeters current p) = false) /\
  (forall j q, (j < i)%nat -> nth_error remaining j = Some q ->
               num_lt (distanceMeters current p) (distanceMeters current q) = true).

(** A route whose every stop is the earliest nearest candidate among
    those not yet taken, seen from the stop before. *)
Inductive greedy_chain : Point -> list Point -> list Point -> Prop :=
| chain_nil : forall current remaining, greedy_chain current remaining []
| chain_cons : forall current remaining i p r,
    earliest_nearest current remaining i p ->
    greedy_chain p (splice1 i remaining) r ->
    greedy_chain current remaining (p :: r).

End Route.

(** ** Values, errors and the built-ins of the engine *)

(** The values the program handles: the parsed catalog and store (JSON),
    the values of form fields, and [undefined] for what is absent. *)
Inductive value : Type :=
| VUndefined
| VNull
| VBool (b : bool)
| VNumber (n : number)
| VString (s : string)
| VArray (elts : list value)
| VObject (props : list (string * value)).

Inductive error : Type := TypeError | SyntaxError | SecurityError | LoadError.

(** A computation that returns or throws. *)
Inductive result (A : Type) : Type :=
| Return (a : A)
| Throw (e : error).

Arguments Return {A} a.
Arguments Throw {A} e.

Definition bind {A B : Type} (c : result A) (k : A -> result B) : result B :=
  match c with
  | Return a => k a
  | Throw e => Throw e
  end.

(** [try { c } catch { h }]. *)
Definition try_catch {A : Type} (c : result A) (h : result A) : result A :=
  match c with
  | Return a => Return a
  | Throw _ => h
  end.

Notation "x <- c ;; k" := (bind c (fun x => k))
  (at level 61, c at next level, right associativity).

(** What the program takes from the engine and the Unicode tables: the
    reading of a string as a number ([Number(s)]), the printing of a number
    ([String(n)], template literals), [toLowerCase], [normalize("NFD")] and
    the removal of the characters of property [Diacritic]. *)
Class Engine : Type := {
  StringToNumber : string -> number;
  NumberToString : number -> string;
  toLowerCase : string -> string;
  normalizeNFD : string -> string;
  stripDiacritic : string -> string;
  (* the empty string has nothing to change *)
  toLowerCase_empty : toLowerCase EmptyString = EmptyString;
  normalizeNFD_empty : normalizeNFD EmptyString = EmptyString;
  stripDiacritic_empty : stripDiacritic EmptyString = EmptyString
}.

(** [null] and [undefined]: the values without properties. *)
Definition nullish (v : value) : bool :=
  match v with
  | VUndefined | VNull => true
  | _ => false
  end.

Section Conversions.

Context {E : Engine}.

Fixpoint join_comma (l : list string) : string :=
  match l with
  | [] => EmptyString
  | [s] => s
  | s :: l' => s ++ "," ++ join_comma l'
  end.

(** [String(v)] and [`${v}`]. *)
Fixpoint ToString (v : value) : string :=
  match v with
  | VUndefined => "undefined"
  | VNull => "null"
  | VBool true => "true"
  | VBool false => "false"
  | VNumber n => NumberToString n
  | VString s => s
  | VArray elts =>
      join_comma
        (map (fun e => match e with
                       | VUndefined | VNull => EmptyString
                       | _ => ToString e
                       end) elts)
  | VObject _ => "[object Object]"
  end.

(** [Number(v)]. *)
Definition ToNumber (v : value) : number :=
  match v with
  | VUndefined => NaN
  | VNull => zero
  | VBool true => Fin 1
  | VBool false => zero
  | VNumber n => n
  | VString s => StringToNumber s
  | VArray _ | VObject _ => StringToNumber (ToString v)
  end.

(** Truthiness: [!!v], [v || d], [if (v)], [filter(Boolean)]. *)
Definition ToBoolean (v : value) : bool :=
  match v with
  | VUndefined | VNull => false
  | VBool b => b
  | VNumber (Fin q) => negb (Qeq_bool q 0)
  | VNumber NaN => false
  | VNumber _ => true
  | VString s => negb (s =? EmptyString)%string
  | VArray _ | VObject _ => true
  end.

Fixpoint assoc (k : string) (props : list (string * value)) : option value :=
  match props with
  | [] => None
  | (k', v) :: props' => if (k =? k')%string then Some v else assoc k props'
  end.

(** The properties after [o[k] = v]: the property keeps its place when
    it exists and is added at the end otherwise. *)
Fixpoint assoc_set (k : string) (v : value) (props : list (string * value))
  : list (string * value) :=
  match props with
  | [] => [(k, v)]
  | (k', v') :: props' =>
      if (k =? k')%string then (k, v) :: props'
      else (k', v') :: assoc_set k v props'
  end.

(** [o[k]] for the keys the program reads ([falla_...], [visited],
    [wish]): they name no built-in property, so only an object has
    them; reading a property of [null] or [undefined] throws. *)
Definition getprop (o : value) (k : string) : result value :=
  if nullish o then Throw TypeError
  else match o with
       | VObject props =>
           Return (match assoc k props with
                   | Some v => v
                   | None => VUndefined
                   end)
       | _ => Return VUndefined
       end.

(** [o?.k]. *)
Definition getprop_opt (o : value) (k : string) : result value :=
  if nullish o then Return VUndefined else getprop o k.

(** [o[k] = v], as [JSON.stringify(o)] sees [o] afterwards.  The script
    is not in strict mode: on a boolean, a number or a string the
    assignment is dropped; on an array it adds a named property, which
    [JSON.stringify] leaves out. *)
Definition setprop (o : value) (k : string) (v : value) : result value :=
  if nullish o then Throw TypeError
  else match o with
       | VObject props => Return (VObject (assoc_set k v props))
       | _ => Return o
       end.

(** ** Utilities *)

Definition keyForFallaNumber (num : value) : string :=
  "falla_" ++ ToString num.

(** [normalize(s)] on a string. *)
Definition normalize (s : string) : string :=
  let s0 := if (s =? EmptyString)%string then EmptyString else s in
  stripDiacritic (normalizeNFD (toLowerCase s0)).

Definition clampInt (n : value) (min max fallback : number) : number :=
  let v := ToNumber n in
  if negb (isFinite v) then fallback
  else Math_max min (Math_min max (Math_round v)).

(** [haystack.includes(needle)]. *)
Fixpoint includes (haystack needle : string) : bool :=
  if prefix needle haystack then true
  else match haystack with
       | EmptyString => false
       | String _ rest => includes rest needle
       end.

(** [s.replace(",", ".")]: the first comma only. *)
Fixpoint replace_comma (s : string) : string :=
  match s with
  | EmptyString => EmptyString
  | String c rest =>
      if Ascii.eqb c ","%char then String "."%char rest
      else String c (replace_comma rest)
  end.

End Conversions.

(** ** Persistence *)

(** A stored string, as [JSON.parse] and [||] see it: the empty string, a
    text [JSON.parse] rejects, or a text it reads as the value [j]. *)
Inductive text : Type :=
| Empty
| Garbled
| Json (j : value).

(** [localStorage], as far as the key [STORAGE_KEY] goes: access refused
    by the browser, or the item of the key when there is one. *)
Inductive storage : Type :=
| Unavailable
| Item (t : option text).

Definition getItem (ls : storage) : result (option text) :=
  match ls with
  | Unavailable => Throw SecurityError
  | Item t => Return t
  end.

Definition setItem (ls : storage) (t : text) : result storage :=
  match ls with
  | Unavailable => Throw SecurityError
  | Item _ => Return (Item (Some t))
  end.

Definition JSON_parse (t : text) : result value :=
  match t with
  | Empty | Garbled => Throw SyntaxError
  | Json j => Return j
  end.

(** What [JSON.parse] reads back from [JSON.stringify(v)]; [None] when
    [JSON.stringify] gives [undefined].  Properties without a JSON form are
    left out, such array elements and the numbers that are not finite
    become [null]. *)
Fixpoint jsonify (v : value) : option value :=
  match v with
  | VUndefined => None
  | VNull => Some VNull
  | VBool b => Some (VBool b)
  | VNumber (Fin q) => Some (VNumber (Fin q))
  | VNumber _ => Some VNull
  | VString s => Some (VString s)
  | VArray elts =>
      Some (VArray (map (fun e => match jsonify e with
                                  | Some j => j
                                  | None => VNull
                                  end) elts))
  | VObject props =>
      Some (VObject
              ((fix props_json (ps : list (string * value)) :=
                  match ps with
                  | [] => []
                  | (k, e) :: ps' =>
                      match jsonify e with
                      | Some j => (k, j) :: props_json ps'
                      | None => props_json ps'
                      end
                  end) props))
  end.

(** The properties of what [JSON.stringify] writes for an object. *)
Definition json_props (j : option value) : list (string * value) :=
  match j with
  | Some (VObject props) => props
  | _ => []
  end.

(** The text [JSON.stringify(v)]; [setItem] stores the string
    ["undefined"] when there is none. *)
Definition JSON_stringify (v : value) : text :=
  match jsonify v with
  | Some j => Json j
  | None => Garbled
  end.

(** [s || "{}"]. *)
Definition or_empty_object (s : option text) : text :=
  match s with
  | None | Some Empty => Json (VObject [])
  | Some t => t
  end.

Definition loadState (ls : storage) : result value :=
  try_catch (s <- getItem ls ;; JSON_parse (or_empty_object s))
            (Return (VObject [])).

Definition saveState (state : value) (ls : storage) : result storage :=
  setItem ls (JSON_stringify state).

(** The record read when a key has no entry. *)
Definition default_visit : value :=
  VObject [("visited", VBool false); ("wish", VBool false);
           ("rating_major", VNumber zero); ("rating_child", VNumber zero)].

(** The form of a popup: the two checkboxes and the two rating fields, each
    [None] when the element is not in the page. *)
Record Popup : Type := mkPopup {
  v_checked : option bool;
  w_checked : option bool;
  m_value : option value;
  c_value : option value
}.

(** [!!(v && v.checked)]. *)
Definition checked (cb : option bool) : bool :=
  match cb with Some b => b | None => false end.

(** [m?.value]. *)
Definition field_value (el : option value) : value :=
  match el with Some x => x | None => VUndefined end.

Section Persistence.

Context {E : Engine}.

(** [state[key] || { visited: false, ... }] of [renderMarkers]. *)
Definition cur_of (state : value) (key : string) : result value :=
  x <- getprop state key ;;
  Return (if ToBoolean x then x else default_visit).

(** The record the save button writes. *)
Definition visit_record (p : Popup) : value :=
  VObject [("visited", VBool (checked (v_checked p)));
           ("wish", VBool (checked (w_checked p)));
           ("rating_major",
             VNumber (clampInt (field_value (m_value p)) zero (Fin 10) zero));
           ("rating_child",
             VNumber (clampInt (field_value (c_value p)) zero (Fin 10) zero))].

(** [s.onclick], up to [saveState(next)]. *)
Definition onSave (key : string) (p : Popup) (ls : storage) : result storage :=
  next <- loadState ls ;;
  next' <- setprop next key (visit_record p) ;;
  saveState next' ls.

(** Reading the record of a key back from the store. *)
Definition readVisit (key : string) (ls : storage) : result value :=
  state <- loadState ls ;;
  cur_of state key.

(** Saves in a row, each for a key and the form of its popup. *)
Fixpoint onSaves (saves : list (string * Popup)) (ls : storage)
  : result storage :=
  match saves with
  | [] => Return ls
  | (key, p) :: saves' =>
      ls' <- onSave key p ls ;;
      onSaves saves' ls'
  end.

End Persistence.

(** ** Catalog, markers and filters *)

(** A raw record of [/data/fallas.json]; a field the record lacks is
    [VUndefined]. *)
Record Falla : Type := mkFalla {
  name : value;
  falla_number : value;
  section : value;
  lat : value;
  lng : value;
  sketch_url : value
}.

(** The answer of [fetch]: [res.ok], and what [res.json()] gives. *)
Record Response : Type := mkResponse {
  ok : bool;
  json : result (list Falla)
}.

(** [loadData]: the new value of [allFallas]. *)
Definition loadData (res : Response) : result (list Falla) :=
  if negb (ok res) then Throw LoadError else json res.

(** An entry of [markers], with the position and the icon state of its
    marker. *)
Record Marker : Type := mkMarker {
  mk_lat : number;
  mk_lng : number;
  mk_visited : bool;
  mk_falla_number : number;
  mk_section : value
}.

(** The controls of the page the filters read: the text field, the status
    selector (each [None] when the element is missing), the checkbox
    "Todas" and the section checkboxes with their [data-section]. *)
Record Controls : Type := mkControls {
  textFilter : option string;
  statusFilter : option string;
  sec_all : bool;
  sec_cbs : list (string * bool)
}.

(** The controls with another choice in the status selector. *)
Definition with_status (status : string) (c : Controls) : Controls :=
  {| textFilter := textFilter c; statusFilter := Some status;
     sec_all := sec_all c; sec_cbs := sec_cbs c |}.

(** What [getSelectedSections] returns: ["ALL"] or an array of sections. *)
Inductive selection : Type :=
| ALL
| Selected (sections : list string).

Definition getSelectedSections (c : Controls) : selection :=
  let cbs := sec_cbs c in
  match cbs with
  | [] => ALL
  | _ :: _ =>
      let selected := map fst (filter snd cbs) in
      if (List.length selected =? List.length cbs)%nat then ALL
      else Selected selected
  end.

Definition getStatusFilter (c : Controls) : string :=
  match statusFilter c with Some v => v | None => "ALL" end.

Definition set_checkboxes (b : bool) (cbs : list (string * bool))
  : list (string * bool) :=
  map (fun cb => (fst cb, b)) cbs.

(** The [change] handler of the checkbox "Todas". *)
Definition on_all_change (c : Controls) : Controls :=
  let checked := sec_all c in
  {| textFilter := textFilter c; statusFilter := statusFilter c;
     sec_all := checked; sec_cbs := set_checkboxes checked (sec_cbs c) |}.

(** The [change] handler of the list, for an event of a section checkbox. *)
Definition on_section_change (c : Controls) : Controls :=
  let cbs := sec_cbs c in
  let allChecked := forallb (fun cb => snd cb) cbs in
  let noneChecked := forallb (fun cb => negb (snd cb)) cbs in
  if noneChecked then
    {| textFilter := textFilter c; statusFilter := statusFilter c;
       sec_all := true; sec_cbs := set_checkboxes true cbs |}
  else
    {| textFilter := textFilter c; statusFilter := statusFilter c;
       sec_all := allChecked; sec_cbs := cbs |}.

Fixpoint toggle (i : nat) (cbs : list (string * bool)) : list (string * bool) :=
  match cbs, i with
  | [], _ => []
  | (s, b) :: cbs', O => (s, negb b) :: cbs'
  | cb :: cbs', S k => cb :: toggle k cbs'
  end.

(** The user clicks "Todas": the box flips, then its handler runs. *)
Definition click_all (c : Controls) : Controls :=
  on_all_change
    {| textFilter := textFilter c; statusFilter := statusFilter c;
       sec_all := negb (sec_all c); sec_cbs := sec_cbs c |}.

(** The user clicks the section checkbox of index [i]. *)
Definition click_section (i : nat) (c : Controls) : Controls :=
  on_section_change
    {| textFilter := textFilter c; statusFilter := statusFilter c;
       sec_all := sec_all c; sec_cbs := toggle i (sec_cbs c) |}.

(** A way of filtering that throws when the callback throws. *)
Fixpoint filter_r {A : Type} (p : A -> result bool) (l : list A)
  : result (list A) :=
  match l with
  | [] => Return []
  | x :: l' =>
      b <- p x ;;
      r <- filter_r p l' ;;
      Return (if b then x :: r else r)
  end.

(** [===] between numbers, with [NaN] equal to itself, as a [Set] has it. *)
Definition number_same (a b : number) : bool :=
  match a, b with
  | NaN, NaN | NInf, NInf | PInf, PInf => true
  | Fin x, Fin y => Qeq_bool x y
  | _, _ => false
  end.

(** Equality of the members of a [Set]; the arrays and objects of a parsed
    catalog are all distinct objects. *)
Definition same_value_zero (a b : value) : bool :=
  match a, b with
  | VUndefined, VUndefined | VNull, VNull => true
  | VBool x, VBool y => Bool.eqb x y
  | VNumber x, VNumber y => number_same x y
  | VString x, VString y => (x =? y)%string
  | _, _ => false
  end.

(** [Array.from(new Set(l))]: the first occurrences, in order. *)
Fixpoint dedupe (seen l : list value) : list value :=
  match l with
  | [] => []
  | x :: l' =>
      if existsb (same_value_zero x) seen then dedupe seen l'
      else x :: dedupe (x :: seen) l'
  end.

(** [new Set(selectedSections).has(v)]: the members are strings. *)
Definition set_has (sections : list string) (v : value) : bool :=
  match v with
  | VString s => existsb (String.eqb s) sections
  | _ => false
  end.

Section Filters.

Context {E : Engine}.

Fixpoint insert_sorted (x : value) (l : list value) : list value :=
  match l with
  | [] => [x]
  | y :: l' =>
      if String.leb (ToString x) (ToString y) then x :: y :: l'
      else y :: insert_sorted x l'
  end.

(** [l.sort()]: by the text of the elements. *)
Definition sort_default (l : list value) : list value :=
  fold_right insert_sorted [] l.

(** [buildSectionFilter]: one checked box per section of the catalog,
    and "Todas" checked.  The [data-section] of a box is the text of its
    section as written into the markup. *)
Definition buildSectionFilter (fallas : list Falla) (c : Controls) : Controls :=
  let sections :=
    sort_default (filter ToBoolean (dedupe [] (map section fallas))) in
  {| textFilter := textFilter c; statusFilter := statusFilter c;
     sec_all := true;
     sec_cbs := map (fun sec => (ToString sec, true)) sections |}.

(** [normalizeSection], kept as far as it returns or throws: in its last
    branch [section.replace] exists for a string only. *)
Definition normalizeSection (sec : value) : result unit :=
  if negb (ToBoolean sec) then Return tt
  else
    let s := toLowerCase (ToString sec) in
    if includes s "especial" then Return tt
    else if includes s "fuera" && includes s "concurso" then Return tt
    else match sec with
         | VString _ => Return tt
         | _ => Throw TypeError
         end.

(** [Number(String(x).replace(",", "."))]. *)
Definition coordinate (x : value) : number :=
  ToNumber (VString (replace_comma (ToString x))).

(** The [for] loop of [renderMarkers]. *)
Fixpoint markers_loop (state : value) (fallas : list Falla)
         (markers : list Marker) : result (list Marker) :=
  match fallas with
  | [] => Return markers
  | f :: rest =>
      let lat_ := coordinate (lat f) in
      let lng_ := coordinate (lng f) in
      if negb (isFinite lat_) || negb (isFinite lng_) then
        markers_loop state rest markers
      else
        let fallaNum := ToNumber (falla_number f) in
        if negb (isFinite fallaNum) then markers_loop state rest markers
        else
          let key := keyForFallaNumber (VNumber fallaNum) in
          cur <- cur_of state key ;;
          visited <- getprop cur "visited" ;;
          _ <- normalizeSection (section f) ;;
          markers_loop state rest
            (markers ++ [{| mk_lat := lat_; mk_lng := lng_;
                            mk_visited := ToBoolean visited;
                            mk_falla_number := fallaNum;
                            mk_section := section f |}])
  end.

(** [renderMarkers(fallas)]: the new value of [markers]. *)
Definition renderMarkers (ls : storage) (fallas : list Falla)
  : result (list Marker) :=
  state <- loadState ls ;;
  markers_loop state fallas [].

(** The text searched for a record. *)
Definition haystack (f : Falla) : string :=
  normalize (ToString (name f) ++ " " ++ ToString (falla_number f)
             ++ " " ++ ToString (section f)).

(** The callback of the status filter. *)
Definition status_test (state : value) (statusFilter : string) (f : Falla)
  : result bool :=
  let key := keyForFallaNumber (falla_number f) in
  e1 <- getprop state key ;;
  v <- getprop_opt e1 "visited" ;;
  let visited := ToBoolean v in
  e2 <- getprop state key ;;
  w <- getprop_opt e2 "wish" ;;
  let wish := ToBoolean w in
  if (statusFilter =? "VISITED")%string then Return visited
  else if (statusFilter =? "NOT_VISITED")%string then Return (negb visited)
  else if (statusFilter =? "WISH")%string then Return wish
  else Return true.

Definition by_sections (selectedSections : selection) (l : list Falla)
  : list Falla :=
  match selectedSections with
  | ALL => l
  | Selected sections => filter (fun f => set_has sections (section f)) l
  end.

Definition by_text (q : string) (l : list Falla) : list Falla :=
  if negb (q =? EmptyString)%string
  then filter (fun f => includes (haystack f) q) l
  else l.

Definition by_status (state : value) (statusFilter : string) (l : list Falla)
  : result (list Falla) :=
  if negb (statusFilter =? "ALL")%string
  then filter_r (status_test state statusFilter) l
  else Return l.

(** The list [filtered] that [applyFilters] hands to [renderMarkers]. *)
Definition filtered (allFallas : list Falla) (c : Controls) (ls : storage)
  : result (list Falla) :=
  let q := normalize (match textFilter c with
                      | Some s => s
                      | None => EmptyString
                      end) in
  let statusFilter := getStatusFilter c in
  let selectedSections := getSelectedSections c in
  state <- loadState ls ;;
  by_status state statusFilter
    (by_text q (by_sections selectedSections allFallas)).

Definition applyFilters (allFallas : list Falla) (c : Controls) (ls : storage)
  : result (list Marker) :=
  l <- filtered allFallas c ls ;;
  renderMarkers ls l.

(** [needle] occurs in [text]. *)
Definition is_substring (needle text : string) : Prop :=
  exists before after, text = (before ++ needle ++ after)%string.

(** The text predicate in the words of the specification: the query is
    empty, or the normalized query is a substring of the normalized
    concatenation of name, id and section. *)
Definition spec_text_predicate (query : string) (f : Falla) : Prop :=
  query = EmptyString \/
  is_substring (normalize query)
               (normalize (ToString (name f) ++ ToString (falla_number f)
                           ++ ToString (section f))).

End Filters.

(** ** Budget, origin and route request *)

(** [a * b] and [a / b], exact on finite numbers.  Zero has no sign here:
    a division by zero gives the infinity of the sign of the dividend. *)
Definition num_mul (a b : number) : number :=
  match a, b with
  | NaN, _ | _, NaN => NaN
  | Fin x, Fin y => Fin (x * y)
  | Fin x, PInf | PInf, Fin x =>
      match (x ?= 0)%Q with Eq => NaN | Gt => PInf | Lt => NInf end
  | Fin x, NInf | NInf, Fin x =>
      match (x ?= 0)%Q with Eq => NaN | Gt => NInf | Lt => PInf end
  | PInf, PInf | NInf, NInf => PInf
  | PInf, NInf | NInf, PInf => NInf
  end.

Definition num_div (a b : number) : number :=
  match a, b with
  | NaN, _ | _, NaN => NaN
  | Fin x, Fin y =>
      if Qeq_bool y 0
      then match (x ?= 0)%Q with Eq => NaN | Gt => PInf | Lt => NInf end
      else Fin (x / y)
  | Fin _, _ => zero
  | PInf, Fin y => match (y ?= 0)%Q with Lt => NInf | _ => PInf end
  | NInf, Fin y => match (y ?= 0)%Q with Lt => PInf | _ => NInf end
  | _, _ => NaN
  end.

(** What [getRouteBudgetMeters] returns. *)
Record Budget : Type := mkBudget {
  minutes : number;
  kmh : number;
  maxMeters : number
}.

(** A point of a route request: the origin carries a [label], a candidate
    its [falla_number]; the field an object lacks is [VUndefined]. *)
Record Place : Type := mkPlace {
  p_lat : number;
  p_lng : number;
  p_falla_number : value;
  p_label : value
}.

(** The markers and modes around the start of a route: whether the browser
    has geolocation, whether a watch runs ([watchId !== null]), the marker
    of the user, the marker of the chosen start, and the pick mode. *)
Record Session : Type := mkSession {
  geolocation : bool;
  watching : bool;
  userMarker : option (number * number);
  startMarker : option (number * number);
  pickStartMode : bool
}.

(** What happens to a session: the buttons, the answers of the position
    watch, and a click on the map. *)
Inductive Event : Type :=
| LocateClick
| PositionFix (lat_ lng_ : number)
| PositionError
| PickStartClick
| MapClick (lat_ lng_ : number).

Definition locateUser (s : Session) : Session :=
  if negb (geolocation s) then s
  else if watching s then s
  else {| geolocation := geolocation s; watching := true;
          userMarker := userMarker s; startMarker := startMarker s;
          pickStartMode := pickStartMode s |}.

(** The success callback of [watchPosition]. *)
Definition on_position (lat_ lng_ : number) (s : Session) : Session :=
  {| geolocation := geolocation s; watching := watching s;
     userMarker := Some (lat_, lng_); startMarker := startMarker s;
     pickStartMode := pickStartMode s |}.

(** The error callback of [watchPosition]. *)
Definition on_position_error (s : Session) : Session :=
  {| geolocation := geolocation s; watching := false;
     userMarker := userMarker s; startMarker := startMarker s;
     pickStartMode := pickStartMode s |}.

Definition enablePickStartMode (s : Session) : Session :=
  {| geolocation := geolocation s; watching := watching s;
     userMarker := userMarker s; startMarker := startMarker s;
     pickStartMode := true |}.

Definition setStartPoint (lat_ lng_ : number) (s : Session) : Session :=
  {| geolocation := geolocation s; watching := watching s;
     userMarker := userMarker s; startMarker := Some (lat_, lng_);
     pickStartMode := false |}.

(** The [click] handler of the map. *)
Definition on_map_click (lat_ lng_ : number) (s : Session) : Session :=
  if negb (pickStartMode s) then s else setStartPoint lat_ lng_ s.

Definition handle (e : Event) (s : Session) : Session :=
  match e with
  | LocateClick => locateUser s
  | PositionFix la lo => on_position la lo s
  | PositionError => on_position_error s
  | PickStartClick => enablePickStartMode s
  | MapClick la lo => on_map_click la lo s
  end.

Fixpoint run (events : list Event) (s : Session) : Session :=
  match events with
  | [] => s
  | e :: events' => run events' (handle e s)
  end.

Definition getOrigin (s : Session) : option Place :=
  match startMarker s with
  | Some (la, lo) =>
      Some {| p_lat := la; p_lng := lo; p_falla_number := VUndefined;
              p_label := VString "🎯 Manual" |}
  | None =>
      match userMarker s with
      | Some (la, lo) =>
          Some {| p_lat := la; p_lng := lo; p_falla_number := VUndefined;
                  p_label := VString "📍 GPS" |}
      | None => None
      end
  end.

(** [obj => ({ lat, lng, falla_number })] of [buildRoute]. *)
Definition point_of (m : Marker) : Place :=
  {| p_lat := mk_lat m; p_lng := mk_lng m;
     p_falla_number := VNumber (mk_falla_number m); p_label := VUndefined |}.

(** How [buildRoute] ends: one of its three alerts without a route, or a
    route drawn from the origin, with the meters used and the minutes
    estimated. *)
Inductive RouteOutcome : Type :=
| NoOrigin
| NoPoints
| NothingFits
| Drawn (origin : Place) (stops : list Place) (line : list (number * number))
        (used estMin : number).

(** A value as [JSON.parse] gives them: no [undefined], no number that is
    not finite. *)
Fixpoint is_json (v : value) : bool :=
  match v with
  | VUndefined => false
  | VNumber (Fin _) => true
  | VNumber _ => false
  | VArray elts => forallb is_json elts
  | VObject props =>
      (fix all_json (ps : list (string * value)) : bool :=
         match ps with
         | [] => true
         | (_, e) :: ps' => is_json e && all_json ps'
         end) props
  | _ => true
  end.

Section Planning.

Context {E : Engine}.

Definition clampNum (n : value) (min max fallback : number) : number :=
  let v := ToNumber n in
  if negb (isFinite v) then fallback
  else Math_max min (Math_min max v).

(** [getRouteBudgetMeters]; the arguments are the values of the fields
    [timeMin] and [speedKmh], [None] for a missing element. *)
Definition getRouteBudgetMeters (timeEl speedEl : option value) : Budget :=
  let minutes := clampNum (field_value timeEl) (Fin 1) (Fin 600) (Fin 45) in
  let kmh := clampNum (field_value speedEl) (Fin 2) (Fin 10) (Fin (9 # 2)) in
  let metersPerMin := num_div (num_mul kmh (Fin 1000)) (Fin 60) in
  let maxMeters := num_mul minutes metersPerMin in
  {| minutes := minutes; kmh := kmh; maxMeters := maxMeters |}.

(** Whether a record gets a marker: the two guards of the marker loop. *)
Definition placeable (f : Falla) : bool :=
  isFinite (coordinate (lat f)) && isFinite (coordinate (lng f))
  && isFinite (ToNumber (falla_number f)).

(** The callback of the filter of [buildRoute]:
    [!state[keyForFallaNumber(p.falla_number)]?.visited]. *)
Definition not_visited (state : value) (p : Place) : result bool :=
  e <- getprop state (keyForFallaNumber (p_falla_number p)) ;;
  v <- getprop_opt e "visited" ;;
  Return (negb (ToBoolean v)).

Variable distanceMeters : Place -> Place -> number.

(** [buildRoute]; [ignoreVisitedChk] is the checkbox of that name, [None]
    when it is missing. *)
Definition buildRoute (s : Session) (timeEl speedEl : option value)
           (ignoreVisitedChk : option bool) (ls : storage)
           (markers : list Marker) : result RouteOutcome :=
  match getOrigin s with
  | None => Return NoOrigin
  | Some origin =>
      let b := getRouteBudgetMeters timeEl speedEl in
      let ignoreVisited := checked ignoreVisitedChk in
      state <- loadState ls ;;
      let points := map point_of markers in
      points <- (if ignoreVisited then filter_r (not_visited state) points
                 else Return points) ;;
      match points with
      | [] => Return NoPoints
      | _ :: _ =>
          let r := buildOptimizedRoute distanceMeters origin points
                                       (maxMeters b) in
          match route r with
          | [] => Return NothingFits
          | _ :: _ =>
              let metersPerMin := num_div (num_mul (kmh b) (Fin 1000)) (Fin 60) in
              let estMin := Math_round (num_div (usedMeters r) metersPerMin) in
              Return (Drawn origin (route r)
                            ((p_lat origin, p_lng origin)
                               :: map (fun p => (p_lat p, p_lng p)) (route r))
                            (usedMeters r) estMin)
          end
      end
  end.

End Planning.

(** ** An engine for ASCII text

    The built-ins as they are on ASCII text, to run the program on
    examples.  Numbers are read exactly and printed in plain decimal
    notation, as the engine prints integers and short decimal fractions. *)

Definition map_string (f : ascii -> ascii) (s : string) : string :=
  string_of_list_ascii (map f (list_ascii_of_string s)).

Definition filter_string (p : ascii -> bool) (s : string) : string :=
  string_of_list_ascii (filter p (list_ascii_of_string s)).

Definition lower_ascii (c : ascii) : ascii :=
  let n := nat_of_ascii c in
  if ((65 <=? n) && (n <=? 90))%nat then ascii_of_nat (n + 32) else c.

(** The two ASCII characters of property [Diacritic]: the circumflex and
    the grave accent. *)
Definition diacritic_ascii (c : ascii) : bool :=
  let n := nat_of_ascii c in ((n =? 94) || (n =? 96))%nat.

Definition is_space (c : ascii) : bool :=
  let n := nat_of_ascii c in ((n =? 32) || ((9 <=? n) && (n <=? 13)))%nat.

Fixpoint drop_spaces (l : list ascii) : list ascii :=
  match l with
  | c :: l' => if is_space c then drop_spaces l' else l
  | [] => []
  end.

Definition trim (s : string) : string :=
  string_of_list_ascii
    (rev (drop_spaces (rev (drop_spaces (list_ascii_of_string s))))).

(** The value of a digit, up to base sixteen. *)
Definition digit_value (c : ascii) : option Z :=
  let n := Z.of_nat (nat_of_ascii c) in
  if ((48 <=? n) && (n <=? 57))%Z then Some (n - 48)%Z
  else if ((97 <=? n) && (n <=? 102))%Z then Some (n - 87)%Z
  else if ((65 <=? n) && (n <=? 70))%Z then Some (n - 55)%Z
  else None.

(** The digits of [s] in a base, after those of value [acc]; [None] when a
    character is no digit of the base. *)
Fixpoint read_digits (base : Z) (s : string) (acc : Z) : option Z :=
  match s with
  | EmptyString => Some acc
  | String c rest =>
      match digit_value c with
      | Some d =>
          if (d <? base)%Z then read_digits base rest (acc * base + d)%Z
          else None
      | None => None
      end
  end.

(** One digit at least. *)
Definition some_digits (base : Z) (s : string) : option Z :=
  match s with
  | EmptyString => None
  | _ => read_digits base s 0%Z
  end.

(** The text before and after the first character that [p] accepts. *)
Fixpoint split_at (p : ascii -> bool) (s : string) : string * option string :=
  match s with
  | EmptyString => (EmptyString, None)
  | String c rest =>
      if p c then (EmptyString, Some rest)
      else let (i, f) := split_at p rest in (String c i, f)
  end.

(** Digits with an optional dot among them. *)
Definition mantissa (s : string) : option Q :=
  match split_at (Ascii.eqb "."%char) s with
  | (EmptyString, None) | (EmptyString, Some EmptyString) => None
  | (i, None) => option_map inject_Z (read_digits 10 i 0%Z)
  | (i, Some f) =>
      match read_digits 10 i 0%Z, read_digits 10 f 0%Z with
      | Some a, Some b =>
          let scale := (10 ^ Z.of_nat (String.length f))%Z in
          Some (Qmake (a * scale + b) (Z.to_pos scale))
      | _, _ => None
      end
  end.

Definition signed_integer (s : string) : option Z :=
  match s with
  | String "+"%char rest => some_digits 10 rest
  | String "-"%char rest => option_map Z.opp (some_digits 10 rest)
  | _ => some_digits 10 s
  end.

Definition unsigned_decimal (s : string) : option Q :=
  match split_at (fun c => Ascii.eqb c "e"%char || Ascii.eqb c "E"%char) s with
  | (m, None) => mantissa m
  | (m, Some e) =>
      match mantissa m, signed_integer e with
      | Some q, Some k => Some (q * Qpower 10 k)%Q
      | _, _ => None
      end
  end.

Definition unsigned_number (s : string) : number :=
  if (s =? "Infinity")%string then PInf
  else match unsigned_decimal s with
       | Some q => Fin q
       | None => NaN
       end.

(** [0x], [0o] and [0b] literals. *)
Definition radix_number (s : string) : option number :=
  match s with
  | String "0"%char (String c rest) =>
      let base :=
        if Ascii.eqb c "x"%char || Ascii.eqb c "X"%char then Some 16%Z
        else if Ascii.eqb c "o"%char || Ascii.eqb c "O"%char then Some 8%Z
        else if Ascii.eqb c "b"%char || Ascii.eqb c "B"%char then Some 2%Z
        else None in
      match base with
      | Some b => Some (match some_digits b rest with
                        | Some z => Fin (inject_Z z)
                        | None => NaN
                        end)
      | None => None
      end
  | _ => None
  end.

Definition negate (n : number) : number :=
  match n with
  | NaN => NaN
  | NInf => PInf
  | PInf => NInf
  | Fin q => Fin (- q)
  end.

(** [Number(s)] on ASCII text, without the rounding to a double. *)
Definition parse_number (s : string) : number :=
  let t := trim s in
  match radix_number t with
  | Some n => n
  | None =>
      match t with
      | EmptyString => zero
      | String "+"%char rest => unsigned_number rest
      | String "-"%char rest => negate (unsigned_number rest)
      | _ => unsigned_number t
      end
  end.

Definition digit_char (d : Z) : ascii := ascii_of_nat (48 + Z.to_nat d).

Fixpoint fraction_digits (fuel : nat) (r d : Z) : string :=
  match fuel with
  | O => EmptyString
  | S fuel' =>
      if (r =? 0)%Z then EmptyString
      else String (digit_char (r * 10 / d))
                  (fraction_digits fuel' ((r * 10) mod d) d)
  end.

(** [String(n)] for an integer or a short decimal fraction. *)
Definition print_number (n : number) : string :=
  match n with
  | NaN => "NaN"
  | PInf => "Infinity"
  | NInf => "-Infinity"
  | Fin q =>
      let a := Z.abs (Qnum q) in
      let d := Zpos (Qden q) in
      let whole := NilZero.string_of_uint (N.to_uint (Z.to_N (a / d))) in
      let frac := fraction_digits 20 (a mod d) d in
      ((if (Qnum q <? 0)%Z then "-" else EmptyString)
       ++ whole
       ++ (if (frac =? EmptyString)%string then EmptyString else "." ++ frac))
  end.

Definition ascii_engine : Engine :=
  {| StringToNumber := parse_number;
     NumberToString := print_number;
     toLowerCase := map_string lower_ascii;
     normalizeNFD := fun s => s;
     stripDiacritic := filter_string (fun c => negb (diacritic_ascii c));
     toLowerCase_empty := eq_refl;
     normalizeNFD_empty := eq_refl;
     stripDiacritic_empty := eq_refl |}.

(** A metric for the examples: points on a line, a meter apart per unit. *)
Definition line_distance (a b : Z) : number :=
  Fin (inject_Z (Z.abs (b - a))).

(** ** Data for the examples *)

Definition falla (nm : string) (num : Z) (sec la lo : string) : Falla :=
  {| name := VString nm; falla_number := VNumber (Fin (inject_Z num));
     section := VString sec; lat := VString la; lng := VString lo;
     sketch_url := VUndefined |}.

Definition sample_catalog : list Falla :=
  [falla "Plaza" 1 "B" "39,47" "-0,37";
   falla "Mercado" 2 "A" "39.48" "-0.38";
   falla "Puerto" 3 "B" "39.45" "-0.33"].

(** A record without number and with a latitude that is no number. *)
Definition malformed_falla : Falla :=
  {| name := VString "Sin numero"; falla_number := VUndefined;
     section := VString "A"; lat := VString "abc"; lng := VString "-0.37";
     sketch_url := VUndefined |}.

(** The page before [buildSectionFilter]: an empty text field, status
    [ALL], no section checkbox yet. *)
Definition page : Controls :=
  {| textFilter := Some EmptyString; statusFilter := Some "ALL";
     sec_all := true; sec_cbs := [] |}.

(** A state in which number 1 is visited. *)
Definition sample_state : value :=
  VObject [("falla_1",
            VObject [("visited", VBool true); ("wish", VBool false);
                     ("rating_major", VNumber (Fin 7));
                     ("rating_child", VNumber (Fin 3))])].

Definition sample_store : storage := Item (Some (Json sample_state)).

(** A metric on places for the examples: the sum of the differences of
    the coordinates (of their finite parts). *)
Definition finite_part (n : number) : Q :=
  match n with Fin q => q | _ => 0 end.

Definition flat_distance (a b : Place) : number :=
  Fin (Qabs (finite_part (p_lat b) - finite_part (p_lat a))
       + Qabs (finite_part (p_lng b) - finite_part (p_lng a))).

Definition sample_markers : list Marker :=
  [ {| mk_lat := Fin 10; mk_lng := Fin 0; mk_visited := true;
       mk_falla_number := Fin 1; mk_section := VString "B" |};
    {| mk_lat := Fin 30; mk_lng := Fin 0; mk_visited := false;
       mk_falla_number := Fin 2; mk_section := VString "A" |};
    {| mk_lat := Fin 200000; mk_lng := Fin 0; mk_visited := false;
       mk_falla_number := Fin 3; mk_section := VString "B" |} ].

(** A session with a position fix and no chosen start. *)
Definition sample_session : Session :=
  {| geolocation := true; watching := true; userMarker := Some (Fin 0, Fin 0);
     startMarker := None; pickStartMode := false |}.

(** * Properties *)

#[local] Open Scope list_scope.

(** ** Order and sum of numbers *)

Lemma num_lt_irrefl (x : number) : num_lt x x = false.
Proof.
  destruct x as [| |q|]; simpl; trivial.
  destruct (q ?= q)%Q eqn:H; trivial.
  apply Qlt_alt in H. exfalso. exact (Qlt_irrefl q H).
Qed.

Lemma num_lt_Fin (x y : Q) : num_lt (Fin x) (Fin y) = true <-> (x < y)%Q.
Proof.
  simpl. rewrite Qlt_alt. destruct (x ?= y)%Q; split; congruence.
Qed.

Lemma num_lt_Fin_false (x y : Q) : num_lt (Fin x) (Fin y) = false <-> (y <= x)%Q.
Proof.
  split; intros H.
  - apply Qnot_lt_le. intros L. apply num_lt_Fin in L. congruence.
  - destruct (num_lt (Fin x) (Fin y)) eqn:L; trivial.
    apply num_lt_Fin in L. exfalso. exact (Qlt_not_le _ _ L H).
Qed.

Lemma num_lt_trans (x y z : number) :
  num_lt x y = true -> num_lt y z = true -> num_lt x z = true.
Proof.
  destruct x as [| |a|], y as [| |b|], z as [| |c|];
    try (simpl; congruence); intros H1 H2.
  apply num_lt_Fin in H1. apply num_lt_Fin in H2. apply num_lt_Fin.
  eapply Qlt_trans; eassumption.
Qed.

(** Below [z] and not above [y]: [y] is no [NaN], so [x < y]. *)
Lemma num_lt_before (x y z : number) :
  num_lt x z = true -> num_lt y z = false -> y <> NaN -> num_lt x y = true.
Proof.
  destruct x as [| |a|], y as [| |b|], z as [| |c|];
    try (simpl; congruence); intros H1 H2 _.
  apply num_lt_Fin in H1. apply num_lt_Fin_false in H2. apply num_lt_Fin.
  eapply Qlt_le_trans; eassumption.
Qed.

(** Nothing above [y] is below something below [y]. *)
Lemma num_lt_not_below (x y z : number) :
  num_lt x z = false -> num_lt y z = true -> num_lt x y = false.
Proof.
  intros H1 H2. destruct (num_lt x y) eqn:L; trivial.
  rewrite (num_lt_trans _ _ _ L H2) in H1. discriminate.
Qed.

Lemma num_lt_PInf_false (x : number) : num_lt x PInf = false -> x <> NaN -> x = PInf.
Proof. destruct x; simpl; congruence. Qed.

Lemma num_gt_asym (x y : number) : num_gt x y = true -> num_gt y x = false.
Proof.
  unfold num_gt. intros H. destruct (num_lt x y) eqn:L; trivial.
  pose proof (num_lt_trans _ _ _ L H) as T. rewrite num_lt_irrefl in T. discriminate.
Qed.

(** ** The route builder *)

Section RouteFacts.

Variable Point : Type.
Variable distanceMeters : Point -> Point -> number.

Lemma splice1_length (l : list Point) (i : nat) (p : Point) :
  nth_error l i = Some p ->
  List.length l = S (List.length (splice1 i l)).
Proof.
  revert i. induction l as [|x l IH]; intros [|i] H; simpl in *;
    try discriminate; trivial.
  f_equal. now apply IH.
Qed.

Lemma splice1_perm (l : list Point) (i : nat) (p : Point) :
  nth_error l i = Some p -> Permutation (p :: splice1 i l) l.
Proof.
  revert i. induction l as [|x l IH]; intros [|i] H; simpl in *;
    try discriminate.
  - injection H as ->. reflexivity.
  - rewrite perm_swap. constructor. now apply IH.
Qed.

(** The index found by the scan is the one it started with or one it
    went over. *)
Lemma scan_index (current : Point) (rest : list Point) :
  forall i bestIdx bestDist,
    let r := scan distanceMeters current rest i bestIdx bestDist in
    fst r = bestIdx \/ (i <= fst r < i + List.length rest)%nat.
Proof.
  induction rest as [|p rest IH]; intros i bestIdx bestDist; simpl.
  - now left.
  - destruct (num_lt (distanceMeters current p) bestDist).
    + destruct (IH (S i) i (distanceMeters current p)) as [H|H]; right; simpl in *; lia.
    + destruct (IH (S i) bestIdx bestDist) as [H|H]; [now left|right].
      simpl in *; lia.
Qed.

Lemma nearest_in_range (current p : Point) (remaining : list Point) :
  (fst (nearest distanceMeters current (p :: remaining))
   < List.length (p :: remaining))%nat.
Proof.
  unfold nearest.
  destruct (scan_index current (p :: remaining) 0 0 PInf) as [H|H];
    simpl in *; lia.
Qed.

(** What a pass of the loop does when it goes on. *)
Lemma step_Some (maxMeters : number) (s s' : Loop Point) :
  step distanceMeters maxMeters s = Some s' ->
  exists bestIdx bestDist next,
    nearest distanceMeters (l_current s) (l_remaining s) = (bestIdx, bestDist) /\
    over_budget maxMeters (l_usedMeters s) bestDist = false /\
    nth_error (l_remaining s) bestIdx = Some next /\
    s' = {| l_remaining := splice1 bestIdx (l_remaining s);
            l_route := l_route s ++ [next];
            l_current := next;
            l_usedMeters := num_add (l_usedMeters s) bestDist |}.
Proof.
  unfold step. destruct (l_remaining s) as [|p rem] eqn:R; [discriminate|].
  destruct (nearest distanceMeters (l_current s) (p :: rem)) as [bestIdx bestDist].
  destruct (over_budget maxMeters (l_usedMeters s) bestDist) eqn:B;
    [discriminate|].
  destruct (nth_error (p :: rem) bestIdx) as [next|] eqn:N; [|discriminate].
  intros H. injection H as <-. now exists bestIdx, bestDist, next.
Qed.

(** The loop is left on an empty [remaining] or on [break], and in no
    other way. *)
Lemma step_None (maxMeters : number) (s : Loop Point) :
  step distanceMeters maxMeters s = None <->
  l_remaining s = [] \/
  over_budget maxMeters (l_usedMeters s)
              (snd (nearest distanceMeters (l_current s) (l_remaining s))) = true.
Proof.
  unfold step. destruct (l_remaining s) as [|p rem] eqn:R.
  - split; auto.
  - pose proof (nearest_in_range (l_current s) p rem) as Hr.
    destruct (nearest distanceMeters (l_current s) (p :: rem)) as [bestIdx bestDist].
    simpl fst in Hr. simpl snd.
    destruct (over_budget maxMeters (l_usedMeters s) bestDist) eqn:B.
    + split; auto.
    + destruct (nth_error (p :: rem) bestIdx) eqn:N.
      * split; [discriminate|]. intros [H|H]; discriminate.
      * apply nth_error_None in N. lia.
Qed.

(** An invariant of the passes holds when the loop is left. *)
Lemma while_loop_invariant (I : Loop Point -> Prop) (maxMeters : number) :
  (forall s s', I s -> step distanceMeters maxMeters s = Some s' -> I s') ->
  forall fuel s, I s -> I (while_loop distanceMeters fuel maxMeters s).
Proof.
  intros Hstep. induction fuel as [|fuel IH]; intros s Hs; simpl; trivial.
  destruct (step distanceMeters maxMeters s) as [s'|] eqn:St; trivial.
  apply IH. eapply Hstep; eassumption.
Qed.

(** [remaining.length] passes are enough: the state reached is one in
    which the loop is left. *)
Lemma while_loop_done (maxMeters : number) :
  forall fuel s,
    (List.length (l_remaining s) <= fuel)%nat ->
    step distanceMeters maxMeters (while_loop distanceMeters fuel maxMeters s) = None.
Proof.
  induction fuel as [|fuel IH]; intros s Hlen; simpl.
  - apply step_None. left.
    destruct (l_remaining s); [trivial|simpl in Hlen; lia].
  - destruct (step distanceMeters maxMeters s) as [s'|] eqn:St; trivial.
    apply IH.
    destruct (step_Some _ _ St) as (i & d & next & _ & _ & N & ->). simpl.
    apply splice1_length in N. lia.
Qed.

(** More passes change nothing. *)
Lemma while_loop_more (maxMeters : number) :
  forall fuel s extra,
    (List.length (l_remaining s) <= fuel)%nat ->
    while_loop distanceMeters (fuel + extra) maxMeters s
    = while_loop distanceMeters fuel maxMeters s.
Proof.
  induction fuel as [|fuel IH]; intros s extra Hlen; simpl.
  - destruct extra; simpl; trivial.
    assert (St : step distanceMeters maxMeters s = None).
    { apply step_None. left.
      destruct (l_remaining s); [trivial|simpl in Hlen; lia]. }
    now rewrite St.
  - destruct (step distanceMeters maxMeters s) as [s'|] eqn:St; trivial.
    apply IH.
    destruct (step_Some _ _ St) as (i & d & next & _ & _ & N & ->). simpl.
    apply splice1_length in N. lia.
Qed.

(** The scan keeps the smallest distance seen and the first index that
    has it, as long as no distance is [NaN].  [pre] is the part of
    [remaining] already gone over. *)
Lemma scan_nearest (current : Point) :
  (forall q, distanceMeters current q <> NaN) ->
  forall rest pre bestIdx bestDist,
    (forall j q, nth_error pre j = Some q ->
                 num_lt (distanceMeters current q) bestDist = false) ->
    (bestDist = PInf /\ bestIdx = 0%nat /\
     (forall j q, nth_error pre j = Some q ->
                  distanceMeters current q = PInf)) \/
    (exists p, nth_error pre bestIdx = Some p /\
               distanceMeters current p = bestDist /\
               forall j q, (j < bestIdx)%nat -> nth_error pre j = Some q ->
                           num_lt bestDist (distanceMeters current q) = true) ->
    let r := scan distanceMeters current rest (List.length pre) bestIdx bestDist in
    (forall j q, nth_error (pre ++ rest) j = Some q ->
                 num_lt (distanceMeters current q) (snd r) = false) /\
    ((snd r = PInf /\ fst r = 0%nat /\
      (forall j q, nth_error (pre ++ rest) j = Some q ->
                   distanceMeters current q = PInf)) \/
     (exists p, nth_error (pre ++ rest) (fst r) = Some p /\
                distanceMeters current p = snd r /\
                forall j q, (j < fst r)%nat ->
                            nth_error (pre ++ rest) j = Some q ->
                            num_lt (snd r) (distanceMeters current q) = true)).
Proof.
  intros Hdef. induction rest as [|p rest IH]; intros pre bestIdx bestDist Hmin Hbest.
  - simpl. rewrite app_nil_r. auto.
  - simpl scan.
    assert (Hlen : List.length (pre ++ [p]) = S (List.length pre))
      by (rewrite length_app; simpl; lia).
    assert (Hnth : forall j q, nth_error (pre ++ [p]) j = Some q ->
                               nth_error pre j = Some q \/
                               (j = List.length pre /\ q = p)).
    { intros j q H. destruct (Nat.lt_ge_cases j (List.length pre)) as [L|L].
      - rewrite nth_error_app1 in H by trivial. now left.
      - rewrite nth_error_app2 in H by trivial.
        destruct (j - List.length pre)%nat as [|k] eqn:K; simpl in H.
        + injection H as <-. right. split; [lia|trivial].
        + destruct k; discriminate. }
    destruct (num_lt (distanceMeters current p) bestDist) eqn:L.
    + specialize (IH (pre ++ [p]) (List.length pre) (distanceMeters current p)).
      rewrite Hlen, <- app_assoc in IH. cbn [app] in IH. apply IH.
      * intros j q H. destruct (Hnth j q H) as [H'|[_ ->]].
        -- eapply num_lt_not_below; [eapply Hmin; eassumption|exact L].
        -- apply num_lt_irrefl.
      * right. exists p. split; [|split; trivial].
        -- rewrite nth_error_app2 by lia. now rewrite Nat.sub_diag.
        -- intros j q Hj H. rewrite nth_error_app1 in H by trivial.
           eapply num_lt_before; [exact L|eapply Hmin; eassumption|apply Hdef].
    + specialize (IH (pre ++ [p]) bestIdx bestDist).
      rewrite Hlen, <- app_assoc in IH. cbn [app] in IH. apply IH.
      * intros j q H. destruct (Hnth j q H) as [H'|[_ ->]]; eauto.
      * destruct Hbest as [(-> & -> & Hall)|(p0 & Hp0 & Hd & Hearly)].
        -- left. split; [trivial|split; trivial].
           intros j q H. destruct (Hnth j q H) as [H'|[_ ->]]; eauto.
           apply num_lt_PInf_false; [exact L|apply Hdef].
        -- right. exists p0.
           assert (Hb : (bestIdx < List.length pre)%nat)
             by (apply nth_error_Some; congruence).
           split; [|split; trivial].
           ++ rewrite nth_error_app1 by trivial. exact Hp0.
           ++ intros j q Hj H. rewrite nth_error_app1 in H by lia. eauto.
Qed.

(** The candidate taken is the earliest nearest one and [bestDist] is
    its distance. *)
Lemma nearest_spec (current next : Point) (remaining : list Point) :
  (forall q, distanceMeters current q <> NaN) ->
  nth_error remaining (fst (nearest distanceMeters current remaining)) = Some next ->
  earliest_nearest distanceMeters current remaining
                   (fst (nearest distanceMeters current remaining)) next /\
  snd (nearest distanceMeters current remaining) = distanceMeters current next.
Proof.
  intros Hdef Hnext. unfold nearest, earliest_nearest in *.
  destruct (scan_nearest Hdef remaining [] (bestIdx := 0) (bestDist := PInf))
    as [Hmin Hbest].
  - intros [|j] q H; discriminate.
  - left. split; [trivial|split; trivial]. intros [|j] q H; discriminate.
  - simpl in Hmin, Hbest.
    set (r := scan distanceMeters current remaining 0 0 PInf) in *.
    destruct Hbest as [(Hd & Hi & Hall)|(p & Hp & Hd & Hearly)].
    + rewrite Hi in *. rewrite Hd.
      pose proof (Hall _ _ Hnext) as Hn. rewrite Hn.
      split; [|trivial]. split; [exact Hnext|split].
      * intros j q H. now rewrite (Hall _ _ H).
      * intros j q Hj. lia.
    + rewrite Hnext in Hp. injection Hp as <-. split; [|now symmetry].
      split; [exact Hnext|split].
      * intros j q H. rewrite Hd. eauto.
      * intros j q Hj H. rewrite Hd. eauto.
Qed.

Lemma last_nonempty (path : list Point) :
  forall x d1 d2, last (x :: path) d1 = last (x :: path) d2.
Proof.
  induction path as [|y path IH]; intros x d1 d2; trivial.
  change (last (y :: path) d1 = last (y :: path) d2). apply IH.
Qed.

Lemma legs_snoc (path : list Point) :
  forall current acc p,
    legs distanceMeters current (path ++ [p]) acc
    = num_add (legs distanceMeters current path acc)
          (distanceMeters (last path current) p).
Proof.
  induction path as [|x path IH]; intros current acc p; trivial.
  change (legs distanceMeters x (path ++ [p])
               (num_add acc (distanceMeters current x))
          = num_add (legs distanceMeters x path
                      (num_add acc (distanceMeters current x)))
                (distanceMeters (last (x :: path) current) p)).
  rewrite IH. destruct path as [|y path]; trivial.
  now rewrite (last_nonempty path y x current).
Qed.

Lemma last_snoc (path : list Point) (p d : Point) : last (path ++ [p]) d = p.
Proof.
  induction path as [|x path IH]; simpl; trivial.
  rewrite IH. destruct path; reflexivity.
Qed.

(** What is taken leaves [remaining] and enters [route]: together they
    are the candidates, rearranged. *)
Lemma route_remaining_perm (origin : Point) (points : list Point)
      (maxMeters : number) :
  let s := route_end distanceMeters origin points maxMeters in
  Permutation (l_route s ++ l_remaining s) points.
Proof.
  unfold route_end.
  apply while_loop_invariant
    with (I := fun s => Permutation (l_route s ++ l_remaining s) points).
  - intros s s' Hs St.
    destruct (step_Some _ _ St) as (i & d & next & _ & _ & N & ->). simpl.
    rewrite <- app_assoc. simpl. rewrite <- Hs.
    apply Permutation_app_head. now apply splice1_perm.
  - reflexivity.
Qed.

(** C10: every stop of the route is a candidate, and no candidate is
    taken more often than it is in the list: the route, followed by the
    candidates left, is a rearrangement of the candidates.  So a list of
    distinct candidates gives a route of distinct stops, and the route is
    no longer than the list. *)
Theorem route_drawn_from_candidates (origin : Point) (points : list Point)
        (maxMeters : number) :
  let r := route (buildOptimizedRoute distanceMeters origin points maxMeters) in
  (forall p, In p r -> In p points) /\
  (NoDup points -> NoDup r) /\
  (List.length r <= List.length points)%nat /\
  exists rest, Permutation (r ++ rest) points.
Proof.
  pose proof (route_remaining_perm origin points maxMeters) as P.
  simpl in *.
  set (s := route_end distanceMeters origin points maxMeters) in *.
  repeat split.
  - intros p Hp. eapply Permutation_in; [exact P|].
    apply in_or_app. now left.
  - intros Hnd. apply Permutation_sym in P.
    apply (Permutation_NoDup P) in Hnd.
    now apply NoDup_app_remove_r in Hnd.
  - apply Permutation_length in P. rewrite length_app in P. lia.
  - now exists (l_remaining s).
Qed.

(** The sum is checked before it is stored: it never exceeds a budget
    that is a finite positive number. *)
Lemma used_not_over (origin : Point) (points : list Point)
      (maxMeters : number) :
  isFinite maxMeters = true -> num_gt maxMeters zero = true ->
  num_gt (l_usedMeters (route_end distanceMeters origin points maxMeters))
     maxMeters = false.
Proof.
  intros Hfin Hpos. unfold route_end.
  apply while_loop_invariant
    with (I := fun s => num_gt (l_usedMeters s) maxMeters = false).
  - intros s s' _ St.
    destruct (step_Some _ _ St) as (i & d & next & _ & B & _ & ->). simpl.
    unfold over_budget in B. rewrite Hfin, Hpos in B. exact B.
  - simpl. now apply num_gt_asym.
Qed.

(** With distances that are finite, the sum is the finite cumulative
    leg distance of the route. *)
Lemma used_is_legs (origin : Point) (points : list Point)
      (maxMeters : number) :
  (forall a b, isFinite (distanceMeters a b) = true) ->
  let s := route_end distanceMeters origin points maxMeters in
  l_usedMeters s = legs distanceMeters origin (l_route s) zero /\
  l_current s = last (l_route s) origin /\
  isFinite (l_usedMeters s) = true.
Proof.
  intros Hfin. unfold route_end.
  apply while_loop_invariant
    with (I := fun s =>
                 l_usedMeters s = legs distanceMeters origin (l_route s) zero /\
                 l_current s = last (l_route s) origin /\
                 isFinite (l_usedMeters s) = true).
  - intros s s' (Hu & Hc & Hf) St.
    destruct (step_Some _ _ St) as (i & d & next & Hn & _ & N & ->). simpl.
    assert (Hdef : forall q, distanceMeters (l_current s) q <> NaN).
    { intros q H. specialize (Hfin (l_current s) q). rewrite H in Hfin.
      discriminate. }
    assert (Hd : d = distanceMeters (l_current s) next).
    { pose proof (@nearest_spec (l_current s) next (l_remaining s) Hdef) as Sp.
      rewrite Hn in Sp. simpl in Sp. now apply Sp. }
    rewrite legs_snoc, last_snoc, <- Hu, <- Hc, Hd. repeat split.
    specialize (Hfin (l_current s) next).
    destruct (l_usedMeters s), (distanceMeters (l_current s) next);
      simpl in *; congruence.
  - simpl. auto.
Qed.

(** C1: for a budget that is a finite positive number, [usedMeters] is
    never above [maxMeters]; when the builder stops with candidates
    left, the leg to the nearest of them would bring the sum above the
    budget; and with finite distances, [usedMeters] is the finite sum of
    the whole legs of the route, at most the budget. *)
Theorem route_within_budget (origin : Point) (points : list Point)
        (maxMeters : number) :
  isFinite maxMeters = true -> num_gt maxMeters zero = true ->
  let s := route_end distanceMeters origin points maxMeters in
  let r := buildOptimizedRoute distanceMeters origin points maxMeters in
  num_gt (usedMeters r) maxMeters = false /\
  (l_remaining s = [] \/
   num_gt (num_add (usedMeters r)
           (snd (nearest distanceMeters (l_current s) (l_remaining s))))
      maxMeters = true) /\
  ((forall a b, isFinite (distanceMeters a b) = true) ->
   usedMeters r = legs distanceMeters origin (route r) zero /\
   exists u m, usedMeters r = Fin u /\ maxMeters = Fin m /\ (u <= m)%Q).
Proof.
  intros Hfin Hpos. simpl.
  pose proof (used_not_over origin points maxMeters Hfin Hpos) as Hu.
  split; [exact Hu|split].
  - pose proof (@while_loop_done maxMeters (List.length points)
                                (route_start origin points) (le_n _)) as D.
    apply step_None in D. fold (route_end distanceMeters origin points maxMeters) in D.
    destruct D as [D|D]; [now left|right].
    unfold over_budget in D. rewrite Hfin, Hpos in D. exact D.
  - intros Hd. destruct (used_is_legs origin points maxMeters Hd) as (L & _ & F).
    split; [exact L|].
    destruct (l_usedMeters (route_end distanceMeters origin points maxMeters))
      as [| |u|]; try discriminate.
    destruct maxMeters as [| |m|]; try discriminate.
    exists u, m. repeat split. now apply num_lt_Fin_false.
Qed.

(** The stops added by the loop form a greedy chain from where it is. *)
Lemma while_loop_chain (maxMeters : number) :
  (forall a b, distanceMeters a b <> NaN) ->
  forall fuel s,
  exists stops,
    l_route (while_loop distanceMeters fuel maxMeters s) = l_route s ++ stops /\
    greedy_chain distanceMeters (l_current s) (l_remaining s) stops.
Proof.
  intros Hdef. induction fuel as [|fuel IH]; intros s; simpl.
  - exists []. rewrite app_nil_r. split; [trivial|constructor].
  - destruct (step distanceMeters maxMeters s) as [s'|] eqn:St.
    + destruct (step_Some _ _ St) as (i & d & next & Hn & _ & N & ->).
      destruct (IH {| l_remaining := splice1 i (l_remaining s);
                      l_route := l_route s ++ [next];
                      l_current := next;
                      l_usedMeters := num_add (l_usedMeters s) d |})
        as (stops & Hr & Hc).
      simpl in Hr, Hc. exists (next :: stops). split.
      * rewrite Hr, <- app_assoc. reflexivity.
      * apply chain_cons with (i := i); [|exact Hc].
        pose proof (@nearest_spec (l_current s) next (l_remaining s)
                                  (Hdef (l_current s))) as Sp.
        rewrite Hn in Sp. simpl in Sp. now apply Sp.
    + exists []. rewrite app_nil_r. split; [trivial|constructor].
Qed.

(** C2: with distances that are never [NaN], every pass of the loop picks,
    among the candidates that remain, one at minimum distance from the
    current position, and of several at that distance the first in the
    order of [remaining]; [bestDist] is its distance.  So every stop of
    the route is the earliest nearest candidate, seen from the stop
    before (from the origin for the first), among those not yet taken. *)
Theorem route_greedy_nearest (origin : Point) (points : list Point)
        (maxMeters : number) :
  (forall a b, distanceMeters a b <> NaN) ->
  (forall current p remaining,
      exists next,
        earliest_nearest distanceMeters current (p :: remaining)
          (fst (nearest distanceMeters current (p :: remaining))) next /\
        snd (nearest distanceMeters current (p :: remaining))
        = distanceMeters current next) /\
  greedy_chain distanceMeters origin points
               (route (buildOptimizedRoute distanceMeters origin points maxMeters)).
Proof.
  intros Hdef. split.
  - intros current p remaining.
    pose proof (nearest_in_range current p remaining) as Hr.
    apply nth_error_Some in Hr.
    destruct (nth_error (p :: remaining)
                (fst (nearest distanceMeters current (p :: remaining))))
      as [next|] eqn:N; [|congruence].
    exists next. now apply nearest_spec.
  - destruct (while_loop_chain maxMeters Hdef (List.length points)
                               (route_start origin points))
      as (stops & Hr & Hc).
    simpl in *. unfold route_end. now rewrite Hr.
Qed.

(** X3: without a budget that is a finite positive number the loop runs
    until [remaining] is empty: every candidate is taken. *)
Lemma unconstrained_route_takes_all (origin : Point) (points : list Point)
      (maxMeters : number) :
  isFinite maxMeters && num_gt maxMeters zero = false ->
  Permutation (route (buildOptimizedRoute distanceMeters origin points maxMeters))
              points.
Proof.
  intros Hb. simpl.
  pose proof (route_remaining_perm origin points maxMeters) as P. simpl in P.
  pose proof (@while_loop_done maxMeters (List.length points)
                               (route_start origin points) (le_n _)) as D.
  apply step_None in D.
  fold (route_end distanceMeters origin points maxMeters) in D.
  destruct D as [D|D].
  - now rewrite D, app_nil_r in P.
  - unfold over_budget in D. rewrite Hb in D. discriminate.
Qed.

End RouteFacts.

Lemma line_distance_defined (a b : Z) : line_distance a b <> NaN.
Proof. discriminate. Qed.

Lemma route_within_budget_witness :
  isFinite (Fin 10) = true /\ num_gt (Fin 10) zero = true /\
  num_gt (usedMeters (buildOptimizedRoute line_distance 0%Z [5; 1; -1; 100]%Z (Fin 10)))
     (Fin 10) = false.
Proof.
  split; [reflexivity|split; [reflexivity|]].
  exact (proj1 (route_within_budget line_distance 0%Z [5; 1; -1; 100]%Z
                                    (Fin 10) eq_refl eq_refl)).
Defined.

Lemma route_greedy_nearest_witness :
  (forall a b, line_distance a b <> NaN) /\
  greedy_chain line_distance 0%Z [5; 1; -1; 100]%Z
               (route (buildOptimizedRoute line_distance 0%Z
                                           [5; 1; -1; 100]%Z (Fin 10))).
Proof.
  split; [exact line_distance_defined|].
  exact (proj2 (route_greedy_nearest line_distance 0%Z [5; 1; -1; 100]%Z
                                     (Fin 10) line_distance_defined)).
Defined.

(** The route of the example, run: the tie between [1] and [-1] goes to
    the earlier one, and [100] no longer fits. *)
Example route_example :
  buildOptimizedRoute line_distance 0%Z [5; 1; -1; 100]%Z (Fin 10)
  = {| route := [1; -1; 5]%Z; usedMeters := Fin 9 |}.
Proof. reflexivity. Qed.

(** The scenarios of the specification on a line: A at the origin, B 111
    meters on, C 1111 meters on. *)
Example route_scenarios :
  buildOptimizedRoute line_distance 0%Z [0; 111; 1111]%Z NaN
  = {| route := [0; 111; 1111]%Z; usedMeters := Fin 1111 |} /\
  buildOptimizedRoute line_distance 0%Z [0; 111; 1111]%Z (Fin 150)
  = {| route := [0; 111]%Z; usedMeters := Fin 111 |} /\
  buildOptimizedRoute line_distance 0%Z [] (Fin 150)
  = {| route := []; usedMeters := Fin 0 |} /\
  buildOptimizedRoute line_distance 0%Z [111; 1111]%Z (Fin 100)
  = {| route := []; usedMeters := Fin 0 |}.
Proof. repeat split. Qed.

(** ** Ratings *)

Lemma num_lt_inject_Z (a b : Z) :
  num_lt (Fin (inject_Z a)) (Fin (inject_Z b)) = (a <? b)%Z.
Proof.
  destruct (a <? b)%Z eqn:L.
  - apply num_lt_Fin. rewrite <- Zlt_Qlt. now apply Z.ltb_lt.
  - apply num_lt_Fin_false. rewrite <- Zle_Qle. apply Z.ltb_ge in L. lia.
Qed.

Lemma clamp_rounded (z : Z) :
  Math_max zero (Math_min (Fin 10) (Fin (inject_Z z)))
  = Fin (inject_Z (Z.max 0 (Z.min 10 z))).
Proof.
  change zero with (Fin (inject_Z 0)). change (Fin 10) with (Fin (inject_Z 10)).
  unfold Math_min. rewrite num_lt_inject_Z.
  destruct (z <? 10)%Z eqn:L1; unfold Math_max; rewrite num_lt_inject_Z.
  - apply Z.ltb_lt in L1. destruct (0 <? z)%Z eqn:L2.
    + apply Z.ltb_lt in L2. do 2 f_equal. lia.
    + apply Z.ltb_ge in L2. do 2 f_equal. lia.
  - apply Z.ltb_ge in L1. simpl. do 2 f_equal. lia.
Qed.

Section RatingFacts.

Context {E : Engine}.

Lemma clampInt_finite (n : value) (q : Q) :
  ToNumber n = Fin q ->
  clampInt n zero (Fin 10) zero
  = Fin (inject_Z (Z.max 0 (Z.min 10 (Qfloor (q + (1 # 2)))))).
Proof.
  intros H. unfold clampInt. rewrite H. simpl. apply clamp_rounded.
Qed.

Lemma clampInt_fallback (n : value) :
  isFinite (ToNumber n) = false -> clampInt n zero (Fin 10) zero = zero.
Proof. intros H. unfold clampInt. now rewrite H. Qed.

Lemma clampInt_range (n : value) :
  exists k : Z, (0 <= k <= 10)%Z /\
                clampInt n zero (Fin 10) zero = Fin (inject_Z k).
Proof.
  destruct (ToNumber n) as [| |q|] eqn:N.
  - exists 0%Z. split; [lia|]. apply clampInt_fallback. now rewrite N.
  - exists 0%Z. split; [lia|]. apply clampInt_fallback. now rewrite N.
  - eexists. split; [|apply (clampInt_finite n N)]. lia.
  - exists 0%Z. split; [lia|]. apply clampInt_fallback. now rewrite N.
Qed.

(** The record of a save is written as it is. *)
Lemma visit_record_json (p : Popup) :
  jsonify (visit_record p) = Some (visit_record p).
Proof.
  unfold visit_record.
  destruct (clampInt_range (field_value (m_value p))) as (a & _ & ->).
  destruct (clampInt_range (field_value (c_value p))) as (b & _ & ->).
  reflexivity.
Qed.

(** C4 (as amended): whatever the input of a rating field, the number
    written is an integer from 0 to 10: an input that converts to a
    finite number above 10 gives 10, one that converts to a finite number
    below 0 gives 0, and one that converts to no finite number ([NaN] or
    an infinity) gives the fallback 0; the record of the save keeps these
    numbers as they are through [JSON.stringify]. *)
Theorem rating_clamped (n : value) :
  (exists k : Z, (0 <= k <= 10)%Z /\
                 clampInt n zero (Fin 10) zero = Fin (inject_Z k)) /\
  (forall q, ToNumber n = Fin q -> (10 < q)%Q ->
             clampInt n zero (Fin 10) zero = Fin 10) /\
  (forall q, ToNumber n = Fin q -> (q < 0)%Q ->
             clampInt n zero (Fin 10) zero = zero) /\
  (isFinite (ToNumber n) = false -> clampInt n zero (Fin 10) zero = zero) /\
  (forall p : Popup, jsonify (visit_record p) = Some (visit_record p)).
Proof.
  split; [apply clampInt_range|]. split; [|split; [|split]].
  - intros q N Hq. rewrite (clampInt_finite n N).
    assert (10 <= Qfloor (q + (1 # 2)))%Z.
    { rewrite <- (Qfloor_Z 10). apply Qfloor_resp_le.
      change (inject_Z 10) with 10%Q. lra. }
    replace (Z.max 0 (Z.min 10 (Qfloor (q + (1 # 2))))) with 10%Z by lia.
    reflexivity.
  - intros q N Hq. rewrite (clampInt_finite n N).
    assert (Qfloor (q + (1 # 2)) <= 0)%Z.
    { change 0%Z with (Qfloor (1 # 2)). apply Qfloor_resp_le. lra. }
    replace (Z.max 0 (Z.min 10 (Qfloor (q + (1 # 2))))) with 0%Z by lia.
    reflexivity.
  - apply clampInt_fallback.
  - apply visit_record_json.
Qed.

End RatingFacts.

(** The claim as stated fails on an infinite input: it is a number above
    10, and the rating written is the fallback 0, not 10. *)
Lemma rating_infinity_not_clamped :
  ToNumber (E := ascii_engine) (VNumber PInf) = PInf /\
  num_lt (Fin 10) PInf = true /\
  clampInt (E := ascii_engine) (VNumber PInf) zero (Fin 10) zero = zero /\
  zero <> Fin 10.
Proof. repeat split. discriminate. Qed.

(** The inputs of the specification's scenario. *)
Example rating_examples :
  clampInt (E := ascii_engine) (VNumber (Fin 15)) zero (Fin 10) zero = Fin 10 /\
  clampInt (E := ascii_engine) (VNumber (Fin (-3))) zero (Fin 10) zero = zero /\
  clampInt (E := ascii_engine) (VString "abc") zero (Fin 10) zero = zero /\
  clampInt (E := ascii_engine) (VString "7.5") zero (Fin 10) zero = Fin 8 /\
  clampInt (E := ascii_engine) VUndefined zero (Fin 10) zero = zero.
Proof. repeat split. Qed.

(** ** Reading and writing the store *)

(** [loadState] never throws. *)
Lemma loadState_returns (ls : storage) : exists state, loadState ls = Return state.
Proof.
  destruct ls as [|[[| |j]|]]; eexists; reflexivity.
Qed.

(** Without access, without item, or with a text that does not parse, the
    state is the empty object. *)
Lemma loadState_failure (ls : storage) :
  ls = Unavailable \/ ls = Item None \/ ls = Item (Some Empty)
  \/ ls = Item (Some Garbled) ->
  loadState ls = Return (VObject []).
Proof. intros [->|[->|[->| ->]]]; reflexivity. Qed.

(** A text that parses is returned as parsed, whatever it is. *)
Lemma loadState_parsed (j : value) :
  loadState (Item (Some (Json j))) = Return j.
Proof. reflexivity. Qed.

(** What was written by [saveState] is an object again when read. *)
Lemma loadState_saved (props : list (string * value)) (ls ls' : storage) :
  saveState (VObject props) ls = Return ls' ->
  loadState ls' = Return (VObject (json_props (jsonify (VObject props)))).
Proof.
  destruct ls; simpl; [discriminate|]. intros H. injection H as <-. reflexivity.
Qed.

Lemma json_props_cons (k : string) (e : value) (ps : list (string * value)) :
  json_props (jsonify (VObject ((k, e) :: ps)))
  = match jsonify e with
    | Some j => (k, j) :: json_props (jsonify (VObject ps))
    | None => json_props (jsonify (VObject ps))
    end.
Proof. simpl. destruct (jsonify e); reflexivity. Qed.

Section StoreFacts.

Context {E : Engine}.

Lemma assoc_json_none (k : string) (ps : list (string * value)) :
  assoc k ps = None -> assoc k (json_props (jsonify (VObject ps))) = None.
Proof.
  induction ps as [|[k' e] ps IH]; intros H; trivial.
  rewrite json_props_cons. simpl in H.
  destruct (k =? k')%string eqn:K; [discriminate|].
  destruct (jsonify e); simpl; [rewrite K|]; now apply IH.
Qed.

Lemma assoc_json_set (k : string) (v v' : value) (ps : list (string * value)) :
  jsonify v = Some v' ->
  assoc k (json_props (jsonify (VObject (assoc_set k v ps)))) = Some v'.
Proof.
  intros Hv. induction ps as [|[k' e] ps IH].
  - simpl assoc_set. rewrite json_props_cons, Hv. simpl.
    now rewrite String.eqb_refl.
  - simpl assoc_set. destruct (k =? k')%string eqn:K.
    + rewrite json_props_cons, Hv. simpl. now rewrite String.eqb_refl.
    + rewrite json_props_cons. destruct (jsonify e); simpl; [rewrite K|];
        exact IH.
Qed.

Lemma assoc_json_set_other (k k' : string) (v : value)
      (ps : list (string * value)) :
  k <> k' ->
  assoc k (json_props (jsonify (VObject (assoc_set k' v ps))))
  = assoc k (json_props (jsonify (VObject ps))).
Proof.
  intros Hk. apply String.eqb_neq in Hk.
  induction ps as [|[k0 e] ps IH].
  - simpl assoc_set. rewrite json_props_cons.
    destruct (jsonify v); simpl; [rewrite Hk|]; reflexivity.
  - simpl assoc_set. destruct (k' =? k0)%string eqn:K.
    + apply String.eqb_eq in K. subst k0. rewrite !json_props_cons.
      destruct (jsonify v), (jsonify e); simpl; rewrite ?Hk; reflexivity.
    + rewrite !json_props_cons. destruct (jsonify e); simpl; [|exact IH].
      destruct (k =? k0)%string; [reflexivity|exact IH].
Qed.

(** A save on a store whose state is an object. *)
Lemma onSave_object (key : string) (p : Popup) (t : option text)
      (props : list (string * value)) :
  loadState (Item t) = Return (VObject props) ->
  onSave key p (Item t)
  = Return (Item (Some (Json (VObject
      (json_props (jsonify (VObject (assoc_set key (visit_record p) props)))))))).
Proof. intros H. unfold onSave. rewrite H. reflexivity. Qed.

Lemma readVisit_object (key : string) (props : list (string * value)) :
  readVisit key (Item (Some (Json (VObject props))))
  = Return (match assoc key props with
            | Some x => if ToBoolean x then x else default_visit
            | None => default_visit
            end).
Proof.
  unfold readVisit, cur_of, getprop. rewrite loadState_parsed. simpl.
  destruct (assoc key props); reflexivity.
Qed.

Lemma readVisit_absent (key : string) (t : option text)
      (props : list (string * value)) :
  loadState (Item t) = Return (VObject props) ->
  assoc key props = None ->
  readVisit key (Item t) = Return default_visit.
Proof.
  intros H A. unfold readVisit, cur_of, getprop. rewrite H. simpl.
  now rewrite A.
Qed.

(** Saves for other keys leave a key without entry. *)
Lemma onSaves_other_keys (key : string) (saves : list (string * Popup)) :
  (forall kp, In kp saves -> fst kp <> key) ->
  forall t props,
    loadState (Item t) = Return (VObject props) ->
    assoc key props = None ->
    exists t' props',
      onSaves saves (Item t) = Return (Item t') /\
      loadState (Item t') = Return (VObject props') /\
      assoc key props' = None.
Proof.
  induction saves as [|[k p] saves IH]; intros Hk t props Hl Ha.
  - exists t, props. auto.
  - simpl onSaves. rewrite (onSave_object k p t Hl). simpl bind.
    apply IH with (props := json_props
                     (jsonify (VObject (assoc_set k (visit_record p) props)))).
    + intros kp Hin. apply Hk. now right.
    + reflexivity.
    + rewrite assoc_json_set_other.
      * now apply assoc_json_none.
      * intros ->. now apply (Hk (k, p)); [left|].
Qed.

(** C3: on a store whose state is an object (one never written, or
    written by the application), the save for an id followed by a read
    of that id gives exactly the record that was written; a record of
    the visit state (two flags, two ratings from 0 to 10) is written as
    it is; and an id without entry reads as the default record, also
    after saves for other keys. *)
Theorem visit_saved_then_read (id : value) (p : Popup) (t : option text)
        (props : list (string * value)) :
  loadState (Item t) = Return (VObject props) ->
  let key := keyForFallaNumber id in
  (exists ls', onSave key p (Item t) = Return ls' /\
               readVisit key ls' = Return (visit_record p)) /\
  (forall (v w : bool) (a b : Z),
      (0 <= a <= 10)%Z -> (0 <= b <= 10)%Z ->
      visit_record {| v_checked := Some v; w_checked := Some w;
                      m_value := Some (VNumber (Fin (inject_Z a)));
                      c_value := Some (VNumber (Fin (inject_Z b))) |}
      = VObject [("visited", VBool v); ("wish", VBool w);
                 ("rating_major", VNumber (Fin (inject_Z a)));
                 ("rating_child", VNumber (Fin (inject_Z b)))]) /\
  (assoc key props = None ->
   readVisit key (Item t) = Return default_visit /\
   forall saves, (forall kp, In kp saves -> fst kp <> key) ->
     exists ls', onSaves saves (Item t) = Return ls' /\
                 readVisit key ls' = Return default_visit).
Proof.
  intros Hl key. split; [|split].
  - eexists. split; [apply (onSave_object key p t Hl)|].
    rewrite readVisit_object.
    rewrite (@assoc_json_set key (visit_record p) (visit_record p)).
    + reflexivity.
    + apply visit_record_json.
  - intros v w a b Ha Hb. unfold visit_record. simpl field_value.
    assert (R : forall k : Z, (0 <= k <= 10)%Z ->
                  clampInt (VNumber (Fin (inject_Z k))) zero (Fin 10) zero
                  = Fin (inject_Z k)).
    { intros k Hk.
      rewrite (@clampInt_finite _ (VNumber (Fin (inject_Z k))) (inject_Z k) eq_refl).
      assert (F : Qfloor (inject_Z k + (1 # 2)) = k).
      { apply Z.le_antisymm.
        - apply Z.lt_succ_r. rewrite Zlt_Qlt.
          eapply Qle_lt_trans; [apply Qfloor_le|].
          unfold Z.succ. rewrite inject_Z_plus.
          change (inject_Z 1) with 1%Q. lra.
        - rewrite <- (Qfloor_Z k) at 1. apply Qfloor_resp_le. lra. }
      rewrite F. do 2 f_equal. lia. }
    now rewrite (R a Ha), (R b Hb).
  - intros Ha. split; [now apply readVisit_absent with (props := props)|].
    intros saves Hk.
    destruct (onSaves_other_keys saves Hk t Hl Ha) as (t' & props' & Hs & Hl' & Ha').
    exists (Item t'). split; [exact Hs|].
    now apply readVisit_absent with (props := props').
Qed.

End StoreFacts.

Lemma visit_saved_then_read_witness :
  loadState (Item None) = Return (VObject []) /\
  exists ls',
    onSave (E := ascii_engine)
           (keyForFallaNumber (E := ascii_engine) (VNumber (Fin 1)))
           {| v_checked := Some true; w_checked := Some false;
              m_value := Some (VString "7"); c_value := Some (VString "3") |}
           (Item None) = Return ls' /\
    readVisit
              (keyForFallaNumber (E := ascii_engine) (VNumber (Fin 1))) ls'
    = Return (visit_record (E := ascii_engine)
                {| v_checked := Some true; w_checked := Some false;
                   m_value := Some (VString "7"); c_value := Some (VString "3") |}).
Proof.
  split; [reflexivity|].
  exact (proj1 (visit_saved_then_read (E := ascii_engine) (VNumber (Fin 1))
                  {| v_checked := Some true; w_checked := Some false;
                     m_value := Some (VString "7"); c_value := Some (VString "3") |}
                  None (props := []) eq_refl)).
Defined.

(** The scenario of the specification, run: the record saved for id 1 is
    read back, and id 999, never saved, reads as the default record. *)
Example visit_scenario :
  let p := {| v_checked := Some true; w_checked := Some false;
              m_value := Some (VString "7"); c_value := Some (VString "3") |} in
  let key := keyForFallaNumber (E := ascii_engine) in
  exists ls',
    onSave (E := ascii_engine) (key (VNumber (Fin 1))) p (Item None) = Return ls' /\
    key (VNumber (Fin 1)) = "falla_1"%string /\
    readVisit (key (VNumber (Fin 1))) ls'
    = Return (VObject [("visited", VBool true); ("wish", VBool false);
                       ("rating_major", VNumber (Fin 7));
                       ("rating_child", VNumber (Fin 3))]%string) /\
    readVisit (key (VNumber (Fin 999))) ls'
    = Return default_visit.
Proof. simpl. eexists. repeat split. Qed.

(** C6, at a store that holds the text [null]: the text parses, so
    [loadState] returns [null], which is no mapping; what reads or writes
    a record of it next throws: the marker loop, the status filter, the
    save handler. *)
Theorem loadState_null_store :
  loadState (Item (Some (Json VNull))) = Return VNull /\
  renderMarkers (E := ascii_engine) (Item (Some (Json VNull))) sample_catalog
  = Throw TypeError /\
  filtered (E := ascii_engine) sample_catalog (with_status "VISITED" page)
           (Item (Some (Json VNull)))
  = Throw TypeError /\
  onSave (E := ascii_engine) "falla_1"
         {| v_checked := Some true; w_checked := Some false;
            m_value := Some (VString "7"); c_value := Some (VString "3") |}
         (Item (Some (Json VNull)))
  = Throw TypeError.
Proof. repeat split. Qed.

(** ** Filters *)

Lemma filter_r_pure {A : Type} (p : A -> result bool) (b : A -> bool)
      (l : list A) :
  (forall x, In x l -> p x = Return (b x)) ->
  filter_r p l = Return (filter b l).
Proof.
  induction l as [|x l IH]; intros H; simpl; trivial.
  rewrite (H x) by now left. simpl.
  rewrite IH by (intros y Hy; apply H; now right). reflexivity.
Qed.

Lemma filter_split_perm {A : Type} (b : A -> bool) (l : list A) :
  Permutation (filter b l ++ filter (fun x => negb (b x)) l) l.
Proof.
  induction l as [|x l IH]; simpl; trivial.
  destruct (b x); simpl.
  - now constructor.
  - apply Permutation_sym. apply Permutation_cons_app. now apply Permutation_sym.
Qed.

Lemma prefix_app (s1 s2 : string) :
  prefix s1 s2 = true <-> exists rest, s2 = (s1 ++ rest)%string.
Proof.
  revert s2. induction s1 as [|a s1 IH]; intros s2.
  - destruct s2; simpl; split; eauto.
  - destruct s2 as [|b s2]; simpl.
    + split; [discriminate|]. intros [rest H]. discriminate.
    + destruct (ascii_dec a b) as [->|N].
      * rewrite IH. split; intros [rest H]; exists rest; congruence.
      * split; [discriminate|]. intros [rest H]. congruence.
Qed.

(** [includes] finds the needle exactly when it occurs. *)
Lemma includes_spec (text needle : string) :
  includes text needle = true <-> is_substring needle text.
Proof.
  unfold is_substring. induction text as [|c text IH].
  - cbn [includes]. destruct (prefix needle EmptyString) eqn:P.
    + split; [intros _|reflexivity].
      apply prefix_app in P. destruct P as [rest P].
      exists EmptyString, rest. exact P.
    + split; [discriminate|]. intros (before & after & H).
      destruct before; [|discriminate]. simpl in H.
      assert (P' : prefix needle EmptyString = true)
        by (apply prefix_app; eauto).
      congruence.
  - cbn [includes]. destruct (prefix needle (String c text)) eqn:P.
    + split; [intros _|reflexivity].
      apply prefix_app in P. destruct P as [rest P].
      exists EmptyString, rest. exact P.
    + rewrite IH. split.
      * intros (before & after & ->). now exists (String c before), after.
      * intros (before & after & H). destruct before as [|c' before].
        -- simpl in H.
           assert (P' : prefix needle (String c text) = true)
             by (apply prefix_app; eauto).
           congruence.
        -- simpl in H. injection H as _ ->. eauto.
Qed.

Lemma getprop_opt_returns (o : value) (k : string) :
  exists v, getprop_opt o k = Return v.
Proof.
  unfold getprop_opt, getprop. destruct (nullish o) eqn:N; eauto.
  destruct o; eauto.
Qed.

Lemma getprop_returns (o : value) (k : string) :
  nullish o = false -> exists v, getprop o k = Return v.
Proof.
  unfold getprop. intros ->. destruct o; eauto.
Qed.

Section FilterFacts.

Context {E : Engine}.

Lemma normalize_empty : normalize EmptyString = EmptyString.
Proof.
  unfold normalize. simpl.
  now rewrite toLowerCase_empty, normalizeNFD_empty, stripDiacritic_empty.
Qed.

(** On a state with properties the status test never throws, and the
    tests for [VISITED] and [NOT_VISITED] are opposite. *)
Lemma status_test_visited (state : value) (f : Falla) :
  nullish state = false ->
  exists visited : bool,
    status_test state "VISITED" f = Return visited /\
    status_test state "NOT_VISITED" f = Return (negb visited).
Proof.
  intros N. unfold status_test.
  destruct (getprop_returns state (keyForFallaNumber (falla_number f)) N)
    as [e ->].
  simpl bind.
  destruct (getprop_opt_returns e "visited") as [v ->].
  destruct (getprop_opt_returns e "wish") as [w ->].
  simpl. eauto.
Qed.

Lemma by_status_split (state : value) (l : list Falla) :
  nullish state = false ->
  exists visited : Falla -> bool,
    by_status state "ALL" l = Return l /\
    by_status state "VISITED" l = Return (filter visited l) /\
    by_status state "NOT_VISITED" l
    = Return (filter (fun f => negb (visited f)) l).
Proof.
  intros N.
  exists (fun f => match status_test state "VISITED" f with
                   | Return b => b
                   | Throw _ => false
                   end).
  split; [reflexivity|]. unfold by_status. simpl. split.
  - apply filter_r_pure. intros f _.
    destruct (status_test_visited state f N) as (b & -> & _). reflexivity.
  - apply filter_r_pure. intros f _.
    destruct (status_test_visited state f N) as (b & -> & ->). reflexivity.
Qed.

(** C7: on a persisted state with properties (an object, as the
    application writes it), and whatever the catalog, the sections and the
    text, the lists filtered for [VISITED] and for [NOT_VISITED] have no
    record in common, a record is in the list for [ALL] exactly when it is
    in one of them, and together they are a rearrangement of that list. *)
Theorem status_filters_partition (allFallas : list Falla) (c : Controls)
        (ls : storage) (state : value) :
  loadState ls = Return state -> nullish state = false ->
  exists all visited not_visited,
    filtered allFallas (with_status "ALL" c) ls = Return all /\
    filtered allFallas (with_status "VISITED" c) ls = Return visited /\
    filtered allFallas (with_status "NOT_VISITED" c) ls = Return not_visited /\
    (forall f, In f all <-> In f visited \/ In f not_visited) /\
    (forall f, In f visited -> In f not_visited -> False) /\
    Permutation (visited ++ not_visited) all.
Proof.
  intros Hl N. unfold filtered. rewrite Hl. simpl bind.
  change (getSelectedSections (with_status _ c)) with (getSelectedSections c).
  set (l := by_text _ (by_sections (getSelectedSections c) allFallas)).
  destruct (by_status_split state l N) as (vis & Ha & Hv & Hn).
  exists l, (filter vis l), (filter (fun f => negb (vis f)) l).
  repeat split; trivial.
  - intros H. destruct (vis f) eqn:V; [left|right];
      apply filter_In; split; trivial. now rewrite V.
  - intros [H|H]; now apply filter_In in H.
  - intros f H1 H2. apply filter_In in H1, H2.
    destruct H1 as [_ H1], H2 as [_ H2]. rewrite H1 in H2. discriminate.
  - apply filter_split_perm.
Qed.

(** C8 (as amended): a record passes the text filter exactly when the
    query is empty or the normalized query occurs in the normalized text
    made of name, number and section with one space between them. *)
Theorem text_filter_passes (query : string) (l : list Falla) (f : Falla) :
  In f (by_text (normalize query) l) <->
  In f l /\
  (query = EmptyString \/
   is_substring (normalize query)
                (normalize (ToString (name f) ++ " "
                            ++ ToString (falla_number f) ++ " "
                            ++ ToString (section f)))).
Proof.
  fold (haystack f). unfold by_text.
  destruct (normalize query =? EmptyString)%string eqn:Q; simpl.
  - apply String.eqb_eq in Q. rewrite Q. split; [|tauto].
    intros H. split; trivial. right. now exists EmptyString, (haystack f).
  - rewrite filter_In, includes_spec. split; [tauto|].
    intros [H [->|S]]; [|tauto].
    rewrite normalize_empty in Q. discriminate.
Qed.

Lemma markers_loop_skip (state : value) (f : Falla) (pre post : list Falla) :
  isFinite (coordinate (lat f)) = false \/
  isFinite (coordinate (lng f)) = false \/
  isFinite (ToNumber (falla_number f)) = false ->
  forall markers,
    markers_loop state (pre ++ f :: post) markers
    = markers_loop state (pre ++ post) markers.
Proof.
  intros Hf. induction pre as [|g pre IH]; intros markers.
  - simpl. destruct Hf as [->|[->|H]]; simpl; trivial.
    + now rewrite orb_true_r.
    + rewrite H. simpl. now destruct (_ || _).
  - simpl. destruct (_ || _); [apply IH|].
    destruct (negb _); [apply IH|].
    destruct (cur_of _ _); simpl; trivial.
    destruct (getprop _ _); simpl; trivial.
    destruct (normalizeSection _); simpl; trivial.
Qed.

Lemma markers_loop_finite (state : value) (fallas : list Falla) :
  forall markers ms,
    markers_loop state fallas markers = Return ms ->
    (forall m, In m markers ->
               isFinite (mk_lat m) = true /\ isFinite (mk_lng m) = true /\
               isFinite (mk_falla_number m) = true) ->
    forall m, In m ms ->
              isFinite (mk_lat m) = true /\ isFinite (mk_lng m) = true /\
              isFinite (mk_falla_number m) = true.
Proof.
  induction fallas as [|f fallas IH]; intros markers ms H Hacc.
  - simpl in H. injection H as <-. exact Hacc.
  - simpl in H.
    destruct (isFinite (coordinate (lat f))) eqn:F1; simpl in H;
      [|eapply IH; eassumption].
    destruct (isFinite (coordinate (lng f))) eqn:F2; simpl in H;
      [|eapply IH; eassumption].
    destruct (isFinite (ToNumber (falla_number f))) eqn:F3; simpl in H;
      [|eapply IH; eassumption].
    destruct (cur_of _ _); simpl in H; [|discriminate].
    destruct (getprop _ _); simpl in H; [|discriminate].
    destruct (normalizeSection _); simpl in H; [|discriminate].
    eapply IH; [exact H|].
    intros m Hm. apply in_app_or in Hm. destruct Hm as [Hm|[<-|[]]]; auto.
Qed.

(** C5 (as amended): [loadData] keeps every record of the response in
    [allFallas]; a record whose [lat] or [lng] (with a comma read as the
    decimal point) or whose [falla_number] does not convert to a finite
    number is passed over when the markers are made: the markers are
    those of the list without it, and every marker made has finite
    coordinates and a finite number. *)
Theorem malformed_record_has_no_marker (ls : storage) (pre post : list Falla)
        (f : Falla) :
  isFinite (coordinate (lat f)) = false \/
  isFinite (coordinate (lng f)) = false \/
  isFinite (ToNumber (falla_number f)) = false ->
  renderMarkers ls (pre ++ f :: post) = renderMarkers ls (pre ++ post) /\
  (forall fallas ms, renderMarkers ls fallas = Return ms ->
     forall m, In m ms ->
               isFinite (mk_lat m) = true /\ isFinite (mk_lng m) = true /\
               isFinite (mk_falla_number m) = true) /\
  (forall res l, loadData res = Return l -> json res = Return l).
Proof.
  intros Hf. split; [|split].
  - unfold renderMarkers. destruct (loadState ls); simpl; trivial.
    now apply markers_loop_skip.
  - unfold renderMarkers. intros fallas ms H.
    destruct (loadState ls); simpl in H; [|discriminate].
    eapply markers_loop_finite; [exact H|]. intros m [].
  - unfold loadData. intros res l. destruct (ok res); simpl; [trivial|].
    discriminate.
Qed.

End FilterFacts.

Lemma status_filters_partition_witness :
  loadState sample_store = Return sample_state /\
  nullish sample_state = false /\
  exists all visited not_visited,
    filtered (E := ascii_engine) sample_catalog (with_status "ALL" page)
             sample_store = Return all /\
    filtered (E := ascii_engine) sample_catalog (with_status "VISITED" page)
             sample_store = Return visited /\
    filtered (E := ascii_engine) sample_catalog (with_status "NOT_VISITED" page)
             sample_store = Return not_visited /\
    (forall f, In f all <-> In f visited \/ In f not_visited) /\
    (forall f, In f visited -> In f not_visited -> False) /\
    Permutation (visited ++ not_visited) all.
Proof.
  split; [reflexivity|split; [reflexivity|]].
  exact (@status_filters_partition ascii_engine sample_catalog page
                                   sample_store sample_state eq_refl eq_refl).
Defined.

(** The three status filters on the sample. *)
Example status_filters_example :
  filtered (E := ascii_engine) sample_catalog (with_status "VISITED" page)
           sample_store
  = Return [falla "Plaza" 1 "B" "39,47" "-0,37"] /\
  filtered (E := ascii_engine) sample_catalog (with_status "NOT_VISITED" page)
           sample_store
  = Return [falla "Mercado" 2 "A" "39.48" "-0.38";
            falla "Puerto" 3 "B" "39.45" "-0.33"] /\
  filtered (E := ascii_engine) sample_catalog (with_status "ALL" page)
           sample_store
  = Return sample_catalog.
Proof. repeat split. Qed.

(** The claim as stated fails: with the three texts put together without
    spaces the query [a1] occurs in [a1b], and the record is filtered out
    all the same, its text being [a 1 b]. *)
Lemma text_predicate_without_spaces :
  spec_text_predicate (E := ascii_engine) "a1" (falla "a" 1 "b" "0" "0") /\
  by_text (E := ascii_engine) (normalize (E := ascii_engine) "a1")
          [falla "a" 1 "b" "0" "0"] = [].
Proof.
  split; [|reflexivity].
  right. exists EmptyString, "b"%string. reflexivity.
Qed.

Example text_filter_example :
  by_text (E := ascii_engine) (normalize (E := ascii_engine) "PLA") sample_catalog
  = [falla "Plaza" 1 "B" "39,47" "-0,37"] /\
  by_text (E := ascii_engine) (normalize (E := ascii_engine) "o 2") sample_catalog
  = [falla "Mercado" 2 "A" "39.48" "-0.38"].
Proof. split; reflexivity. Qed.

Lemma malformed_record_has_no_marker_witness :
  (isFinite (coordinate (E := ascii_engine) (lat malformed_falla)) = false \/
   isFinite (coordinate (E := ascii_engine) (lng malformed_falla)) = false \/
   isFinite (ToNumber (E := ascii_engine) (falla_number malformed_falla)) = false) /\
  renderMarkers (E := ascii_engine) sample_store
                ([falla "Plaza" 1 "B" "39,47" "-0,37"] ++ malformed_falla
                   :: [falla "Mercado" 2 "A" "39.48" "-0.38"])
  = renderMarkers (E := ascii_engine) sample_store
                  ([falla "Plaza" 1 "B" "39,47" "-0,37"]
                     ++ [falla "Mercado" 2 "A" "39.48" "-0.38"]).
Proof.
  assert (H : isFinite (coordinate (E := ascii_engine) (lat malformed_falla)) = false \/
              isFinite (coordinate (E := ascii_engine) (lng malformed_falla)) = false \/
              isFinite (ToNumber (E := ascii_engine) (falla_number malformed_falla)) = false)
    by (left; reflexivity).
  split; [exact H|].
  exact (proj1 (@malformed_record_has_no_marker ascii_engine sample_store
                  [falla "Plaza" 1 "B" "39,47" "-0,37"]
                  [falla "Mercado" 2 "A" "39.48" "-0.38"] malformed_falla H)).
Defined.

(** The markers of the sample with the malformed record in it. *)
Example markers_example :
  renderMarkers (E := ascii_engine) sample_store
                (malformed_falla :: sample_catalog)
  = Return [ {| mk_lat := Fin (3947 # 100); mk_lng := Fin (- (37 # 100));
                mk_visited := true; mk_falla_number := Fin 1;
                mk_section := VString "B" |};
             {| mk_lat := Fin (3948 # 100); mk_lng := Fin (- (38 # 100));
                mk_visited := false; mk_falla_number := Fin 2;
                mk_section := VString "A" |};
             {| mk_lat := Fin (3945 # 100); mk_lng := Fin (- (33 # 100));
                mk_visited := false; mk_falla_number := Fin 3;
                mk_section := VString "B" |} ].
Proof. reflexivity. Qed.

(** An id that is [null] converts to the number 0 and gets its marker. *)
Example null_number_example :
  renderMarkers (E := ascii_engine) (Item None)
    [ {| name := VString "Sin numero"; falla_number := VNull;
         section := VString "A"; lat := VNumber (Fin 39);
         lng := VNumber (Fin (-1)); sketch_url := VUndefined |} ]
  = Return [ {| mk_lat := Fin 39; mk_lng := Fin (-1); mk_visited := false;
                mk_falla_number := Fin 0; mk_section := VString "A" |} ].
Proof. reflexivity. Qed.

(** The claim as stated fails: a record without number and with a
    latitude that is no number is loaded into [allFallas] like any other,
    passes the filters and gives its section a checkbox. *)
Lemma malformed_record_is_loaded :
  isFinite (coordinate (E := ascii_engine) (lat malformed_falla)) = false /\
  isFinite (ToNumber (E := ascii_engine) (falla_number malformed_falla)) = false /\
  loadData {| ok := true; json := Return [malformed_falla] |}
  = Return [malformed_falla] /\
  filtered (E := ascii_engine) [malformed_falla] page (Item None)
  = Return [malformed_falla] /\
  sec_cbs (buildSectionFilter (E := ascii_engine) [malformed_falla] page)
  = [("A"%string, true)].
Proof. repeat split. Qed.

(** ** Section checkboxes *)

Lemma set_checkboxes_all (l : list (string * bool)) :
  filter snd (set_checkboxes true l) = set_checkboxes true l.
Proof. induction l as [|x l IH]; simpl; [trivial|now rewrite IH]. Qed.

Lemma set_checkboxes_none (l : list (string * bool)) :
  filter snd (set_checkboxes false l) = [].
Proof. induction l as [|x l IH]; simpl; trivial. Qed.

Lemma some_checked (l : list (string * bool)) :
  forallb (fun cb => negb (snd cb)) l = false -> filter snd l <> [].
Proof.
  induction l as [|[s b] l IH]; simpl; [discriminate|].
  destruct b; simpl; [discriminate|exact IH].
Qed.

(** The handler of the section checkboxes never leaves an empty
    selection: with no box checked it checks them all. *)
Lemma click_section_not_empty (i : nat) (c : Controls) :
  getSelectedSections (click_section i c) <> Selected [].
Proof.
  unfold click_section, on_section_change. simpl.
  destruct (forallb (fun cb => negb (snd cb)) (toggle i (sec_cbs c))) eqn:N;
    unfold getSelectedSections; simpl.
  - destruct (set_checkboxes true (toggle i (sec_cbs c))) eqn:S;
      [discriminate|].
    rewrite <- S, set_checkboxes_all, length_map, Nat.eqb_refl. discriminate.
  - destruct (toggle i (sec_cbs c)) as [|cb l] eqn:T; [discriminate|].
    destruct (_ =? _)%nat; [discriminate|].
    intros H. injection H as H. apply map_eq_nil in H.
    now apply (some_checked _ N).
Qed.

(** The handler of "Todas" has no such guard: unchecking it when there
    are sections leaves none selected. *)
Lemma click_all_unchecks (c : Controls) :
  sec_all c = true -> sec_cbs c <> [] ->
  getSelectedSections (click_all c) = Selected [].
Proof.
  intros A S. unfold click_all, on_all_change, getSelectedSections. simpl.
  rewrite A. simpl. destruct (sec_cbs c) as [|cb l]; [congruence|].
  simpl. now rewrite set_checkboxes_none.
Qed.

(** C9, at the failing input: on the sample catalog, with all sections
    checked, the user unchecks "Todas".  Every section checkbox is then
    unchecked, [getSelectedSections] returns the empty array, and the
    filters keep no record, where the full selection keeps them all. *)
Theorem uncheck_all_selects_nothing :
  let c0 := buildSectionFilter (E := ascii_engine) sample_catalog page in
  let c1 := click_all c0 in
  sec_cbs c0 = [("A"%string, true); ("B"%string, true)] /\
  getSelectedSections c0 = ALL /\
  sec_cbs c1 = [("A"%string, false); ("B"%string, false)] /\
  getSelectedSections c1 = Selected [] /\
  filtered (E := ascii_engine) sample_catalog c0 (Item None)
  = Return sample_catalog /\
  filtered (E := ascii_engine) sample_catalog c1 (Item None) = Return [].
Proof. repeat split. Qed.

(** * Further properties *)

(** ** More on the route builder *)

Section RouteMore.

Variable Point : Type.
Variable distanceMeters : Point -> Point -> number.

(** The loop only appends to the route. *)
Lemma while_loop_appends (maxMeters : number) :
  forall fuel s,
  exists stops,
    l_route (while_loop distanceMeters fuel maxMeters s) = l_route s ++ stops.
Proof.
  induction fuel as [|fuel IH]; intros s; simpl.
  - exists []. now rewrite app_nil_r.
  - destruct (step distanceMeters maxMeters s) as [s'|] eqn:St.
    + destruct (step_Some _ _ _ St) as (i & d & next & _ & _ & _ & ->).
      destruct (IH {| l_remaining := splice1 i (l_remaining s);
                      l_route := l_route s ++ [next];
                      l_current := next;
                      l_usedMeters := num_add (l_usedMeters s) d |})
        as (stops & ->).
      simpl. exists (next :: stops). now rewrite <- app_assoc.
    + exists []. now rewrite app_nil_r.
Qed.

(** X1: the route is empty exactly when there is no candidate or the leg
    from the origin to the nearest candidate is already over the budget;
    the meters used are then 0. *)
Theorem route_empty_iff (origin : Point) (points : list Point)
        (maxMeters : number) :
  let r := buildOptimizedRoute distanceMeters origin points maxMeters in
  (route r = [] <->
   points = [] \/
   over_budget maxMeters zero (snd (nearest distanceMeters origin points)) = true)
  /\ (route r = [] -> usedMeters r = zero).
Proof.
  simpl. unfold route_end. destruct points as [|p points].
  - simpl. split; [split; auto|trivial].
  - simpl List.length. cbn [while_loop].
    destruct (step distanceMeters maxMeters (route_start origin (p :: points)))
      as [s'|] eqn:St.
    + destruct (step_Some _ _ _ St) as (i & d & next & Hn & Hb & _ & ->).
      destruct (while_loop_appends maxMeters (List.length points)
                  {| l_remaining := splice1 i (l_remaining (route_start origin (p :: points)));
                     l_route := l_route (route_start origin (p :: points)) ++ [next];
                     l_current := next;
                     l_usedMeters := num_add (l_usedMeters (route_start origin (p :: points))) d |})
        as (stops & ->).
      simpl in *. split; [split|]; [discriminate| |discriminate].
      intros [H|H]; [discriminate|]. rewrite Hn in H. simpl in H. congruence.
    + apply step_None in St. simpl in St. split; [split|]; trivial.
Qed.

Lemma over_budget_larger (b1 b2 u d : number) :
  isFinite b1 = true -> num_gt b1 zero = true -> num_lt b2 b1 = false ->
  over_budget b1 u d = false -> over_budget b2 u d = false.
Proof.
  intros F1 P1 L H. unfold over_budget in *. rewrite F1, P1 in H. simpl in H.
  destruct b2 as [| |y2|]; trivial. simpl isFinite. cbn [andb].
  destruct b1 as [| |y1|]; try discriminate.
  apply num_lt_Fin_false in L. unfold num_gt in *.
  rewrite andb_false_iff. right.
  destruct (num_add u d) as [| |z|]; trivial; try discriminate.
  apply num_lt_Fin_false in H. apply num_lt_Fin_false. lra.
Qed.

Lemma step_larger (b1 b2 : number) (s s' : Loop Point) :
  isFinite b1 = true -> num_gt b1 zero = true -> num_lt b2 b1 = false ->
  step distanceMeters b1 s = Some s' -> step distanceMeters b2 s = Some s'.
Proof.
  intros F1 P1 L. unfold step. destruct (l_remaining s); trivial.
  destruct (nearest distanceMeters (l_current s) (p :: l)) as [i d].
  destruct (over_budget b1 (l_usedMeters s) d) eqn:B; [discriminate|].
  now rewrite (@over_budget_larger b1 b2 _ _ F1 P1 L B).
Qed.

(** X2: a budget that is not smaller only extends the route: the route
    for a finite positive budget is the beginning of the route for any
    budget not below it, and of the route without budget. *)
Theorem larger_budget_extends_route (origin : Point) (points : list Point)
        (b1 b2 : number) :
  isFinite b1 = true -> num_gt b1 zero = true -> num_lt b2 b1 = false ->
  exists more,
    route (buildOptimizedRoute distanceMeters origin points b2)
    = route (buildOptimizedRoute distanceMeters origin points b1) ++ more.
Proof.
  intros F1 P1 L. simpl. unfold route_end.
  generalize (route_start origin points). generalize (List.length points).
  induction n as [|n IH]; intros s; simpl.
  - exists []. now rewrite app_nil_r.
  - destruct (step distanceMeters b1 s) as [s'|] eqn:St.
    + rewrite (@step_larger b1 b2 _ _ F1 P1 L St). apply IH.
    + destruct (step distanceMeters b2 s) as [s2|] eqn:St2.
      * destruct (step_Some _ _ _ St2) as (i & d & next & _ & _ & _ & ->).
        destruct (while_loop_appends b2 n
                    {| l_remaining := splice1 i (l_remaining s);
                       l_route := l_route s ++ [next];
                       l_current := next;
                       l_usedMeters := num_add (l_usedMeters s) d |})
          as (stops & ->).
        simpl. exists (next :: stops). now rewrite <- app_assoc.
      * exists []. now rewrite app_nil_r.
Qed.

End RouteMore.

Lemma larger_budget_extends_route_witness :
  isFinite (Fin 5) = true /\ num_gt (Fin 5) zero = true /\
  num_lt (Fin 10) (Fin 5) = false /\
  exists more,
    route (buildOptimizedRoute line_distance 0%Z [5; 1; -1; 100]%Z (Fin 10))
    = route (buildOptimizedRoute line_distance 0%Z [5; 1; -1; 100]%Z (Fin 5))
      ++ more.
Proof.
  repeat split.
  exact (larger_budget_extends_route line_distance 0%Z [5; 1; -1; 100]%Z
           (Fin 5) (Fin 10) eq_refl eq_refl eq_refl).
Defined.

Lemma unconstrained_route_takes_all_witness :
  isFinite PInf && num_gt PInf zero = false /\
  Permutation (route (buildOptimizedRoute line_distance 0%Z [5; 1; -1; 100]%Z PInf))
              [5; 1; -1; 100]%Z.
Proof.
  split; [reflexivity|].
  exact (unconstrained_route_takes_all line_distance 0%Z [5; 1; -1; 100]%Z
                                       PInf eq_refl).
Defined.

(** ** Budget of a route *)

Lemma clamp_between (lo hi q : Q) :
  exists r,
    Math_max (Fin lo) (Math_min (Fin hi) (Fin q)) = Fin r /\
    ((lo <= hi)%Q -> (lo <= r <= hi)%Q) /\
    ((lo <= q <= hi)%Q -> (r == q)%Q).
Proof.
  unfold Math_min. destruct (num_lt (Fin q) (Fin hi)) eqn:L1; unfold Math_max.
  - apply num_lt_Fin in L1. destruct (num_lt (Fin lo) (Fin q)) eqn:L2.
    + apply num_lt_Fin in L2. exists q. repeat split; lra.
    + apply num_lt_Fin_false in L2. exists lo. repeat split; lra.
  - apply num_lt_Fin_false in L1. destruct (num_lt (Fin lo) (Fin hi)) eqn:L2.
    + apply num_lt_Fin in L2. exists hi. repeat split; lra.
    + apply num_lt_Fin_false in L2. exists lo. repeat split; lra.
Qed.

Section BudgetFacts.

Context {E : Engine}.

(** X4: [clampNum] with finite bounds: an input that converts to a finite
    number gives a number between the bounds (when they are in order),
    the input itself when it lies between them; any other input gives the
    fallback. *)
Theorem clampNum_bounds (n : value) (lo hi : Q) (fallback : number) :
  (forall q, ToNumber n = Fin q ->
     exists r, clampNum n (Fin lo) (Fin hi) fallback = Fin r /\
               ((lo <= hi)%Q -> (lo <= r <= hi)%Q) /\
               ((lo <= q <= hi)%Q -> (r == q)%Q)) /\
  (isFinite (ToNumber n) = false ->
   clampNum n (Fin lo) (Fin hi) fallback = fallback).
Proof.
  unfold clampNum. split.
  - intros q ->. cbn [isFinite negb]. apply clamp_between.
  - now intros ->.
Qed.

Lemma clampNum_in_range (n : value) (lo hi fb : Q) :
  (lo <= hi)%Q -> (lo <= fb <= hi)%Q ->
  exists r, clampNum n (Fin lo) (Fin hi) (Fin fb) = Fin r /\ (lo <= r <= hi)%Q.
Proof.
  intros H Hfb. unfold clampNum.
  destruct (ToNumber n) as [| |q|]; cbn [isFinite negb]; eauto.
  destruct (clamp_between lo hi q) as (r & -> & Hr & _). eauto.
Qed.

Lemma budget_range (timeEl speedEl : option value) :
  let b := getRouteBudgetMeters timeEl speedEl in
  exists m k,
    minutes b = Fin m /\ (1 <= m <= 600)%Q /\
    kmh b = Fin k /\ (2 <= k <= 10)%Q /\
    maxMeters b = Fin (m * (k * 1000 / 60)).
Proof.
  simpl.
  destruct (@clampNum_in_range (field_value timeEl) 1 600 45) as (m & -> & Hm);
    [lra|lra|].
  destruct (@clampNum_in_range (field_value speedEl) 2 10 (9 # 2)) as (k & -> & Hk);
    [lra|lra|].
  exists m, k. repeat split; try tauto.
Qed.

(** X5: whatever the two fields hold, the budget of a route is a finite
    number of meters from 100/3 (one minute at 2 km/h) to 100000 (600
    minutes at 10 km/h): the budget check of the route builder is always
    on. *)
Theorem budget_always_constrains (timeEl speedEl : option value) :
  let b := getRouteBudgetMeters timeEl speedEl in
  exists x, maxMeters b = Fin x /\ (100 # 3 <= x <= 100000)%Q /\
            isFinite (maxMeters b) && num_gt (maxMeters b) zero = true.
Proof.
  destruct (budget_range timeEl speedEl) as (m & k & _ & Hm & _ & Hk & Hx).
  simpl in *. rewrite Hx. eexists. split; [reflexivity|].
  assert (Hs : (100 # 3 <= k * 1000 / 60 <= 500 # 3)%Q).
  { unfold Qdiv. change (/ 60)%Q with (1 # 60)%Q. lra. }
  assert (Hb : (100 # 3 <= m * (k * 1000 / 60) <= 100000)%Q).
  { set (v := (k * 1000 / 60)%Q) in *. nra. }
  split; [exact Hb|]. simpl. apply num_lt_Fin. lra.
Qed.

End BudgetFacts.

(** ** Origin of a route *)

Lemma run_app (a b : list Event) (s : Session) :
  run (a ++ b) s = run b (run a s).
Proof. revert s. induction a as [|e a IH]; intros s; simpl; auto. Qed.

(** X6: outside pick mode the chosen start does not move: as long as
    "choose start" is not clicked, no click on the map, position fix or
    other event changes it, and pick mode stays off. *)
Theorem start_moves_only_in_pick_mode (events : list Event) (s : Session) :
  pickStartMode s = false ->
  (forall e, In e events -> e <> PickStartClick) ->
  startMarker (run events s) = startMarker s /\
  pickStartMode (run events s) = false.
Proof.
  revert s. induction events as [|e events IH]; intros s Hp He; simpl; auto.
  assert (H : startMarker (handle e s) = startMarker s /\
              pickStartMode (handle e s) = false).
  { destruct e; simpl; auto.
    - unfold locateUser. destruct (negb _); auto. destruct (watching s); auto.
    - exfalso. now apply (He PickStartClick); [left|].
    - unfold on_map_click. rewrite Hp. auto. }
  destruct H as [H1 H2]. rewrite <- H1. apply IH; trivial.
  intros e' He'. apply He. now right.
Qed.

Lemma start_moves_only_in_pick_mode_witness :
  pickStartMode sample_session = false /\
  (forall e, In e [MapClick (Fin 1) (Fin 2); PositionFix (Fin 3) (Fin 4)] ->
             e <> PickStartClick) /\
  startMarker (run [MapClick (Fin 1) (Fin 2); PositionFix (Fin 3) (Fin 4)]
                   sample_session)
  = startMarker sample_session.
Proof.
  assert (H : forall e, In e [MapClick (Fin 1) (Fin 2); PositionFix (Fin 3) (Fin 4)] ->
                        e <> PickStartClick).
  { intros e [<-|[<-|[]]]; discriminate. }
  split; [reflexivity|split; [exact H|]].
  exact (proj1 (start_moves_only_in_pick_mode _ sample_session eq_refl H)).
Defined.

(** X7: a start once chosen is never removed: whatever follows, the
    origin of a route is a manual one. *)
Theorem fixed_start_stays (events : list Event) (s : Session) :
  startMarker s <> None ->
  exists o, getOrigin (run events s) = Some o /\
            p_label o = VString "🎯 Manual".
Proof.
  revert s. induction events as [|e events IH]; intros s Hs.
  - simpl. unfold getOrigin. destruct (startMarker s) as [[la lo]|];
      [eauto|congruence].
  - simpl. apply IH. destruct e; simpl; trivial.
    + unfold locateUser. destruct (negb _); trivial.
      destruct (watching s); trivial.
    + unfold on_map_click. destruct (negb _); trivial. discriminate.
Qed.

Lemma fixed_start_stays_witness :
  startMarker (setStartPoint (Fin 1) (Fin 2) sample_session) <> None /\
  exists o,
    getOrigin (run [PositionFix (Fin 3) (Fin 4); PositionError; LocateClick]
                   (setStartPoint (Fin 1) (Fin 2) sample_session)) = Some o /\
    p_label o = VString "🎯 Manual".
Proof.
  assert (H : startMarker (setStartPoint (Fin 1) (Fin 2) sample_session) <> None)
    by discriminate.
  split; [exact H|].
  exact (fixed_start_stays [PositionFix (Fin 3) (Fin 4); PositionError; LocateClick]
                           (setStartPoint (Fin 1) (Fin 2) sample_session) H).
Defined.

Lemma pick_mode_kept (events : list Event) (s : Session) :
  pickStartMode s = true ->
  (forall e la lo, In e events -> e <> MapClick la lo) ->
  pickStartMode (run events s) = true.
Proof.
  revert s. induction events as [|e events IH]; intros s Hp He; simpl; trivial.
  apply IH.
  - destruct e; simpl; trivial.
    + unfold locateUser. destruct (negb _); trivial.
      destruct (watching s); trivial.
    + exfalso. now apply (He (MapClick lat_ lng_) lat_ lng_); [left|].
  - intros e' la lo He'. apply He. now right.
Qed.

(** X8: after "choose start", the first click on the map fixes the start
    there and ends pick mode, whatever position fixes or other events come
    in between: the origin of a route is then that point. *)
Theorem pick_then_click_sets_start (between : list Event) (la lo : number)
        (s : Session) :
  (forall e la' lo', In e between -> e <> MapClick la' lo') ->
  let s' := run (PickStartClick :: between ++ [MapClick la lo]) s in
  getOrigin s' = Some {| p_lat := la; p_lng := lo;
                         p_falla_number := VUndefined;
                         p_label := VString "🎯 Manual" |} /\
  pickStartMode s' = false.
Proof.
  intros He. cbn [run handle]. rewrite run_app. cbn [run handle].
  unfold on_map_click.
  rewrite (pick_mode_kept between (enablePickStartMode s) eq_refl He).
  simpl. auto.
Qed.

Lemma pick_then_click_sets_start_witness :
  (forall e la' lo', In e [PositionFix (Fin 3) (Fin 4)] -> e <> MapClick la' lo') /\
  getOrigin (run (PickStartClick :: [PositionFix (Fin 3) (Fin 4)]
                    ++ [MapClick (Fin 1) (Fin 2)]) sample_session)
  = Some {| p_lat := Fin 1; p_lng := Fin 2; p_falla_number := VUndefined;
            p_label := VString "🎯 Manual" |}.
Proof.
  assert (H : forall e la' lo', In e [PositionFix (Fin 3) (Fin 4)] ->
                                e <> MapClick la' lo').
  { intros e la' lo' [<-|[]]. discriminate. }
  split; [exact H|].
  exact (proj1 (pick_then_click_sets_start [PositionFix (Fin 3) (Fin 4)]
                  (Fin 1) (Fin 2) sample_session H)).
Defined.

(** ** More on the store *)

Lemma value_induction (P : value -> Prop) :
  P VUndefined -> P VNull -> (forall b, P (VBool b)) ->
  (forall n, P (VNumber n)) -> (forall s, P (VString s)) ->
  (forall elts, Forall P elts -> P (VArray elts)) ->
  (forall props, Forall (fun kv => P (snd kv)) props -> P (VObject props)) ->
  forall v, P v.
Proof.
  intros Hu Hn Hb Hnum Hs Ha Ho. fix IH 1.
  intros [| |b|n|s|elts|props];
    [exact Hu|exact Hn|apply Hb|apply Hnum|apply Hs| |].
  - apply Ha. induction elts as [|e elts IHl]; constructor; [apply IH|exact IHl].
  - apply Ho. induction props as [|[k e] props IHl]; constructor;
      [apply IH|exact IHl].
Qed.

Lemma is_json_object_cons (k : string) (e : value) (ps : list (string * value)) :
  is_json (VObject ((k, e) :: ps)) = is_json e && is_json (VObject ps).
Proof. reflexivity. Qed.

(** [JSON.stringify] then [JSON.parse] changes nothing in a JSON value,
    and gives a JSON value whatever it is applied to. *)
Lemma jsonify_json (v : value) :
  (is_json v = true -> jsonify v = Some v) /\
  (forall j, jsonify v = Some j -> is_json j = true).
Proof.
  induction v as [| |b|n|s|elts IH|props IH] using value_induction.
  - split; discriminate.
  - split; [trivial|intros j H; now injection H as <-].
  - split; [trivial|intros j H; now injection H as <-].
  - destruct n; (split; [try discriminate; trivial
                        |intros j H; now injection H as <-]).
  - split; [trivial|intros j H; now injection H as <-].
  - split.
    + intros H. simpl in *. do 2 f_equal.
      induction IH as [|e elts [He _] _ IHl]; simpl in *; trivial.
      apply andb_true_iff in H. destruct H as [H1 H2].
      now rewrite (He H1), (IHl H2).
    + intros j H. simpl in H. injection H as <-. simpl.
      induction IH as [|e elts [_ He] _ IHl]; simpl; trivial.
      rewrite IHl, andb_true_r. destruct (jsonify e); [now apply He|trivial].
  - split.
    + intros H. change (jsonify (VObject props))
        with (Some (VObject (json_props (jsonify (VObject props))))).
      do 2 f_equal.
      induction IH as [|[k e] ps [He _] _ IHl]; trivial.
      rewrite is_json_object_cons in H. apply andb_true_iff in H.
      destruct H as [H1 H2]. simpl in He.
      now rewrite json_props_cons, (He H1), (IHl H2).
    + intros j H.
      change (jsonify (VObject props))
        with (Some (VObject (json_props (jsonify (VObject props))))) in H.
      injection H as <-.
      change (is_json (VObject (json_props (jsonify (VObject props)))) = true).
      induction IH as [|[k e] ps [_ He] _ IHl]; trivial.
      rewrite json_props_cons. simpl in He.
      destruct (jsonify e) as [j|]; [|exact IHl].
      rewrite is_json_object_cons, IHl, andb_true_r. now apply He.
Qed.

(** X9: what [saveState] writes, [loadState] reads back: a JSON value
    (no [undefined], no number that is not finite) comes back as it was
    saved, and whatever was saved, what comes back is a JSON value. *)
Theorem save_then_load (state : value) (t : option text) :
  exists ls',
    saveState state (Item t) = Return ls' /\
    (is_json state = true -> loadState ls' = Return state) /\
    (forall loaded, loadState ls' = Return loaded -> is_json loaded = true).
Proof.
  unfold saveState, JSON_stringify. simpl.
  destruct (jsonify_json state) as [H1 H2].
  destruct (jsonify state) as [j|].
  - eexists. split; [reflexivity|]. rewrite loadState_parsed. split.
    + intros H. specialize (H1 H). now injection H1 as ->.
    + intros loaded H. injection H as <-. now apply H2.
  - eexists. split; [reflexivity|].
    change (loadState (Item (Some Garbled))) with (Return (VObject [])). split.
    + intros H. specialize (H1 H). discriminate.
    + intros loaded H. now injection H as <-.
Qed.

Section StoreMore.

Context {E : Engine}.

(** X10: a save for one id leaves the record of every other id as it
    was, on a store whose state is a JSON object. *)
Theorem save_keeps_other_records (a b : value) (p : Popup) (t : option text)
        (props : list (string * value)) :
  loadState (Item t) = Return (VObject props) ->
  is_json (VObject props) = true ->
  keyForFallaNumber a <> keyForFallaNumber b ->
  exists ls',
    onSave (keyForFallaNumber a) p (Item t) = Return ls' /\
    readVisit (keyForFallaNumber b) ls' = readVisit (keyForFallaNumber b) (Item t).
Proof.
  intros Hl Hj Hk. eexists. split; [apply (onSave_object _ p t Hl)|].
  rewrite readVisit_object, assoc_json_set_other by congruence.
  apply (proj1 (jsonify_json _)) in Hj. rewrite Hj. simpl json_props.
  unfold readVisit, cur_of, getprop. rewrite Hl. simpl.
  destruct (assoc (keyForFallaNumber b) props); reflexivity.
Qed.

(** X11: on a store whose text is a JSON array the save is lost: the
    handler returns, the store still holds the array, and the record reads
    as the default. *)
Theorem save_lost_on_array_store (id : value) (p : Popup) (elts : list value) :
  is_json (VArray elts) = true ->
  exists ls',
    onSave (keyForFallaNumber id) p (Item (Some (Json (VArray elts)))) = Return ls' /\
    loadState ls' = Return (VArray elts) /\
    readVisit (keyForFallaNumber id) ls' = Return default_visit.
Proof.
  intros Hj. apply (proj1 (jsonify_json _)) in Hj.
  unfold onSave, saveState, JSON_stringify. rewrite loadState_parsed.
  cbn [bind setprop nullish]. rewrite Hj. eexists. split; [reflexivity|].
  split; reflexivity.
Qed.

(** X12: with the storage refused by the browser the page reads an
    empty state, so the filters and the markers are those of an empty
    store, and only the save throws. *)
Theorem unavailable_storage (allFallas : list Falla) (c : Controls)
        (key : string) (p : Popup) :
  loadState Unavailable = Return (VObject []) /\
  filtered allFallas c Unavailable = filtered allFallas c (Item None) /\
  renderMarkers Unavailable allFallas = renderMarkers (Item None) allFallas /\
  onSave key p Unavailable = Throw SecurityError.
Proof. repeat split. Qed.

(** X13: after the save of the popup of a record whose number is a
    number, the status filters see what was saved: the record passes
    [VISITED] exactly when "Visitada" was checked, [NOT_VISITED] when it was
    not, and [WISH] exactly when "Quiero verla" was checked. *)
Theorem saved_visit_is_filtered (f : Falla) (n : number) (p : Popup)
        (t : option text) (props : list (string * value)) :
  loadState (Item t) = Return (VObject props) ->
  falla_number f = VNumber n ->
  exists ls' state',
    onSave (keyForFallaNumber (VNumber (ToNumber (falla_number f)))) p (Item t)
    = Return ls' /\
    loadState ls' = Return state' /\
    status_test state' "VISITED" f = Return (checked (v_checked p)) /\
    status_test state' "NOT_VISITED" f = Return (negb (checked (v_checked p))) /\
    status_test state' "WISH" f = Return (checked (w_checked p)).
Proof.
  intros Hl Hn. rewrite Hn. simpl ToNumber.
  eexists. eexists. split; [apply (onSave_object _ p t Hl)|].
  split; [reflexivity|].
  assert (G : getprop
                (VObject
                   (json_props
                      (jsonify
                         (VObject
                            (assoc_set (keyForFallaNumber (VNumber n))
                                       (visit_record p) props)))))
                (keyForFallaNumber (VNumber n))
              = Return (visit_record p)).
  { unfold getprop. cbn [nullish].
    now rewrite (@assoc_json_set _ (visit_record p) (visit_record p))
      by apply visit_record_json. }
  unfold status_test. rewrite Hn, !G. repeat split.
Qed.

End StoreMore.

Lemma save_keeps_other_records_witness :
  loadState sample_store = Return sample_state /\
  is_json sample_state = true /\
  keyForFallaNumber (E := ascii_engine) (VNumber (Fin 2))
  <> keyForFallaNumber (E := ascii_engine) (VNumber (Fin 1)) /\
  exists ls',
    onSave (E := ascii_engine)
           (keyForFallaNumber (E := ascii_engine) (VNumber (Fin 2)))
           {| v_checked := Some true; w_checked := None;
              m_value := None; c_value := None |} sample_store = Return ls' /\
    readVisit (keyForFallaNumber (E := ascii_engine) (VNumber (Fin 1))) ls'
    = readVisit (keyForFallaNumber (E := ascii_engine) (VNumber (Fin 1)))
                sample_store.
Proof.
  assert (H : keyForFallaNumber (E := ascii_engine) (VNumber (Fin 2))
              <> keyForFallaNumber (E := ascii_engine) (VNumber (Fin 1)))
    by discriminate.
  split; [reflexivity|split; [reflexivity|split; [exact H|]]].
  exact (@save_keeps_other_records ascii_engine (VNumber (Fin 2)) (VNumber (Fin 1))
           {| v_checked := Some true; w_checked := None;
              m_value := None; c_value := None |}
           (Some (Json sample_state)) _ eq_refl eq_refl H).
Defined.

Lemma save_lost_on_array_store_witness :
  is_json (VArray [VNumber (Fin 1)]) = true /\
  exists ls',
    onSave (E := ascii_engine)
           (keyForFallaNumber (E := ascii_engine) (VNumber (Fin 1)))
           {| v_checked := Some true; w_checked := None;
              m_value := None; c_value := None |}
           (Item (Some (Json (VArray [VNumber (Fin 1)])))) = Return ls' /\
    loadState ls' = Return (VArray [VNumber (Fin 1)]) /\
    readVisit (keyForFallaNumber (E := ascii_engine) (VNumber (Fin 1))) ls'
    = Return default_visit.
Proof.
  split; [reflexivity|].
  exact (@save_lost_on_array_store ascii_engine (VNumber (Fin 1))
           {| v_checked := Some true; w_checked := None;
              m_value := None; c_value := None |}
           [VNumber (Fin 1)] eq_refl).
Defined.

Lemma saved_visit_is_filtered_witness :
  loadState (Item None) = Return (VObject []) /\
  falla_number (falla "Plaza" 1 "B" "39,47" "-0,37") = VNumber (Fin 1) /\
  exists ls' state',
    onSave (E := ascii_engine)
           (keyForFallaNumber (E := ascii_engine)
              (VNumber (ToNumber (E := ascii_engine)
                          (falla_number (falla "Plaza" 1 "B" "39,47" "-0,37")))))
           {| v_checked := Some true; w_checked := Some false;
              m_value := None; c_value := None |} (Item None) = Return ls' /\
    loadState ls' = Return state' /\
    status_test (E := ascii_engine) state' "VISITED"
                (falla "Plaza" 1 "B" "39,47" "-0,37") = Return true.
Proof.
  split; [reflexivity|split; [reflexivity|]].
  destruct (@saved_visit_is_filtered ascii_engine
              (falla "Plaza" 1 "B" "39,47" "-0,37") (Fin 1)
              {| v_checked := Some true; w_checked := Some false;
                 m_value := None; c_value := None |}
              None [] eq_refl eq_refl) as (ls' & state' & H1 & H2 & H3 & _).
  exists ls', state'. auto.
Defined.

(** ** More on the filters *)

Lemma filter_all {A : Type} (l : list A) : filter (fun _ => true) l = l.
Proof. induction l as [|x l IH]; simpl; [trivial|now rewrite IH]. Qed.

Lemma filter_twice {A : Type} (p q : A -> bool) (l : list A) :
  filter q (filter p l) = filter (fun x => p x && q x) l.
Proof.
  induction l as [|x l IH]; simpl; trivial.
  destruct (p x); simpl; [destruct (q x)|]; now rewrite IH.
Qed.

(** All boxes selected, by the count of [getSelectedSections]. *)
Lemma selected_count (cbs : list (string * bool)) :
  (List.length (map fst (filter snd cbs)) =? List.length cbs)%nat
  = forallb snd cbs.
Proof.
  rewrite length_map.
  induction cbs as [|[s b] cbs IH]; simpl; trivial.
  destruct b; simpl; [exact IH|].
  apply Nat.eqb_neq. pose proof (filter_length_le snd cbs). lia.
Qed.

Lemma in_checked (cbs : list (string * bool)) (s : string) :
  In s (map fst (filter snd cbs)) <-> In (s, true) cbs.
Proof.
  rewrite in_map_iff. split.
  - intros ([s' b] & <- & H). apply filter_In in H. simpl in H.
    destruct H as [H ->]. exact H.
  - intros H. exists (s, true). split; trivial. now apply filter_In.
Qed.

(** X14: which sections are selected: [getSelectedSections] answers "ALL"
    exactly when every section checkbox is checked (also when there is
    none); otherwise it answers the sections of the checked boxes, in
    their order, and some box is unchecked. *)
Theorem selected_sections (c : Controls) :
  (getSelectedSections c = ALL <-> forallb snd (sec_cbs c) = true) /\
  (forall secs, getSelectedSections c = Selected secs ->
     secs = map fst (filter snd (sec_cbs c)) /\
     forallb snd (sec_cbs c) = false /\
     forall s, In s secs <-> In (s, true) (sec_cbs c)).
Proof.
  unfold getSelectedSections. destruct (sec_cbs c) as [|cb cbs] eqn:C.
  - split; [split; trivial|discriminate].
  - cbv zeta. set (l := cb :: cbs).
    rewrite selected_count. destruct (forallb snd l) eqn:F.
    + split; [split; trivial|discriminate].
    + split; [split; discriminate|].
      intros secs H. injection H as <-.
      split; [trivial|split; [trivial|]]. intros s. exact (in_checked l s).
Qed.

Lemma toggle_not_nil (i : nat) (cbs : list (string * bool)) :
  cbs <> [] -> toggle i cbs <> [].
Proof.
  destruct cbs as [|[s b] cbs]; [congruence|]. destruct i; discriminate.
Qed.

Lemma selected_all_iff (c : Controls) :
  getSelectedSections c = ALL <-> forallb snd (sec_cbs c) = true.
Proof.
  unfold getSelectedSections. destruct (sec_cbs c) as [|cb cbs] eqn:C.
  - split; trivial.
  - rewrite selected_count. destruct (forallb snd (cb :: cbs));
      split; trivial; discriminate.
Qed.

Lemma forallb_set_checkboxes (b : bool) (cbs : list (string * bool)) :
  cbs <> [] -> forallb snd (set_checkboxes b cbs) = b.
Proof.
  destruct cbs as [|cb cbs]; [congruence|]. intros _. simpl.
  destruct b; simpl; trivial.
  induction cbs as [|x cbs IH]; simpl; trivial.
Qed.

(** X15: with at least one section, after a click on "Todas" or on a
    section checkbox, the box "Todas" is checked exactly when the selection
    is "ALL". *)
Theorem todas_reflects_selection (c : Controls) :
  sec_cbs c <> [] ->
  (sec_all (click_all c) = true <-> getSelectedSections (click_all c) = ALL) /\
  (forall i, sec_all (click_section i c) = true <->
             getSelectedSections (click_section i c) = ALL).
Proof.
  intros Hc. split.
  - rewrite selected_all_iff. unfold click_all, on_all_change. simpl.
    rewrite forallb_set_checkboxes by trivial. tauto.
  - intros i. rewrite selected_all_iff.
    pose proof (toggle_not_nil i Hc) as Ht.
    unfold click_section, on_section_change. simpl.
    destruct (forallb (fun cb => negb (snd cb)) (toggle i (sec_cbs c))); simpl.
    + rewrite forallb_set_checkboxes by trivial. tauto.
    + tauto.
Qed.

Lemma todas_reflects_selection_witness :
  sec_cbs (buildSectionFilter (E := ascii_engine) sample_catalog page) <> [] /\
  (sec_all (click_all (buildSectionFilter (E := ascii_engine) sample_catalog page))
   = true <->
   getSelectedSections
     (click_all (buildSectionFilter (E := ascii_engine) sample_catalog page))
   = ALL).
Proof.
  assert (H : sec_cbs (buildSectionFilter (E := ascii_engine) sample_catalog page)
              <> []) by discriminate.
  split; [exact H|].
  exact (proj1 (todas_reflects_selection
                  (buildSectionFilter (E := ascii_engine) sample_catalog page) H)).
Defined.

Section FilterMore.

Context {E : Engine}.

Lemma status_test_returns (state : value) (status : string) (f : Falla) :
  nullish state = false -> exists b, status_test state status f = Return b.
Proof.
  intros N. unfold status_test.
  destruct (getprop_returns state (keyForFallaNumber (falla_number f)) N)
    as [e ->].
  simpl bind.
  destruct (getprop_opt_returns e "visited") as [v ->].
  destruct (getprop_opt_returns e "wish") as [w ->].
  simpl bind.
  destruct (status =? "VISITED")%string; eauto.
  destruct (status =? "NOT_VISITED")%string; eauto.
  destruct (status =? "WISH")%string; eauto.
Qed.

Lemma status_test_other (state : value) (status : string) (f : Falla) :
  nullish state = false ->
  status <> "VISITED"%string -> status <> "NOT_VISITED"%string ->
  status <> "WISH"%string ->
  status_test state status f = Return true.
Proof.
  intros N H1 H2 H3. unfold status_test.
  destruct (getprop_returns state (keyForFallaNumber (falla_number f)) N)
    as [e ->].
  simpl bind.
  destruct (getprop_opt_returns e "visited") as [v ->].
  destruct (getprop_opt_returns e "wish") as [w ->].
  simpl bind.
  apply String.eqb_neq in H1, H2, H3. now rewrite H1, H2, H3.
Qed.

(** X16: a status that is none of [VISITED], [NOT_VISITED] and [WISH]
    filters nothing, on a state that is not [null]. *)
Theorem unknown_status_filters_nothing (state : value) (status : string)
        (l : list Falla) :
  nullish state = false ->
  status <> "VISITED"%string -> status <> "NOT_VISITED"%string ->
  status <> "WISH"%string ->
  by_status state status l = Return l.
Proof.
  intros N H1 H2 H3. unfold by_status.
  destruct (negb (status =? "ALL")%string); trivial.
  rewrite (filter_r_pure _ (fun _ => true)); [now rewrite filter_all|].
  intros f _. now apply status_test_other.
Qed.

(** X17: the filters are a conjunction applied to the catalog in its
    order.  On a state that is not [null], the list filtered is the
    catalog without the records that fail one of three tests: the section
    is one of those selected (or the selection is "ALL"), the normalized
    query is empty or occurs in the text of the record, and the callback of
    the status returns true. *)
Theorem filtered_is_conjunction (allFallas : list Falla) (c : Controls)
        (ls : storage) (state : value) :
  loadState ls = Return state -> nullish state = false ->
  let q := normalize (match textFilter c with
                      | Some s => s
                      | None => EmptyString
                      end) in
  exists keep : Falla -> bool,
    filtered allFallas c ls = Return (filter keep allFallas) /\
    forall f, keep f = true <->
      (getSelectedSections c = ALL \/
       exists secs, getSelectedSections c = Selected secs /\
                    set_has secs (section f) = true) /\
      (q = EmptyString \/ is_substring q (haystack f)) /\
      status_test state (getStatusFilter c) f = Return true.
Proof.
  intros Hl N q. unfold filtered. rewrite Hl. simpl bind. fold q.
  set (st := getStatusFilter c).
  set (ks := fun f => match getSelectedSections c with
                      | ALL => true
                      | Selected secs => set_has secs (section f)
                      end).
  set (kt := fun f => if negb (q =? EmptyString)%string
                      then includes (haystack f) q else true).
  set (kst := fun f => match status_test state st f with
                       | Return b => b
                       | Throw _ => false
                       end).
  exists (fun f => ks f && (kt f && kst f)). split.
  - assert (Hs : by_sections (getSelectedSections c) allFallas
                 = filter ks allFallas).
    { unfold by_sections, ks. destruct (getSelectedSections c); trivial.
      now rewrite filter_all. }
    assert (Ht : forall l, by_text q l = filter kt l).
    { intros l. unfold by_text, kt.
      destruct (negb (q =? EmptyString)%string); trivial.
      now rewrite filter_all. }
    assert (Hst : forall l, by_status state st l = Return (filter kst l)).
    { intros l. unfold by_status.
      destruct (negb (st =? "ALL")%string) eqn:A.
      - apply filter_r_pure. intros f _. unfold kst.
        destruct (status_test_returns state st f N) as [b ->]. reflexivity.
      - apply negb_false_iff, String.eqb_eq in A.
        rewrite (filter_ext kst (fun _ => true)); [now rewrite filter_all|].
        intros f. unfold kst. rewrite A.
        rewrite status_test_other; trivial; discriminate. }
    now rewrite Hs, Ht, Hst, !filter_twice.
  - intros f. unfold ks, kt, kst. rewrite !andb_true_iff.
    assert (A : (match getSelectedSections c with
                 | ALL => true
                 | Selected secs => set_has secs (section f)
                 end = true) <->
                (getSelectedSections c = ALL \/
                 exists secs, getSelectedSections c = Selected secs /\
                              set_has secs (section f) = true)).
    { destruct (getSelectedSections c) as [|secs].
      - split; auto.
      - split.
        + intros H. right. now exists secs.
        + intros [H|(secs' & H & H')]; [discriminate|]. now injection H as <-. }
    assert (B : (if negb (q =? EmptyString)%string
                 then includes (haystack f) q else true) = true <->
                (q = EmptyString \/ is_substring q (haystack f))).
    { destruct (q =? EmptyString)%string eqn:Q; simpl.
      - apply String.eqb_eq in Q. split; auto.
      - apply String.eqb_neq in Q. rewrite includes_spec. split; [auto|].
        intros [H|H]; [contradiction|trivial]. }
    assert (C : match status_test state st f with
                | Return b => b
                | Throw _ => false
                end = true <-> status_test state st f = Return true).
    { destruct (status_test state st f) as [b|e].
      - split; [now intros ->|now intros H; injection H]. 
      - split; discriminate. }
    rewrite A, B, C. tauto.
Qed.


End FilterMore.

Lemma unknown_status_filters_nothing_witness :
  nullish sample_state = false /\
  "TODAS"%string <> "VISITED"%string /\ "TODAS"%string <> "NOT_VISITED"%string /\
  "TODAS"%string <> "WISH"%string /\
  by_status (E := ascii_engine) sample_state "TODAS" sample_catalog
  = Return sample_catalog.
Proof.
  assert (H1 : "TODAS"%string <> "VISITED"%string) by discriminate.
  assert (H2 : "TODAS"%string <> "NOT_VISITED"%string) by discriminate.
  assert (H3 : "TODAS"%string <> "WISH"%string) by discriminate.
  split; [reflexivity|split; [exact H1|split; [exact H2|split; [exact H3|]]]].
  exact (@unknown_status_filters_nothing ascii_engine sample_state "TODAS"
           sample_catalog eq_refl H1 H2 H3).
Defined.

Lemma filtered_is_conjunction_witness :
  loadState sample_store = Return sample_state /\
  nullish sample_state = false /\
  exists keep : Falla -> bool,
    filtered (E := ascii_engine) sample_catalog (with_status "VISITED" page)
             sample_store
    = Return (filter keep sample_catalog).
Proof.
  split; [reflexivity|split; [reflexivity|]].
  destruct (@filtered_is_conjunction ascii_engine sample_catalog
              (with_status "VISITED" page) sample_store sample_state
              eq_refl eq_refl) as (keep & H & _).
  now exists keep.
Defined.


(** ** Section checkboxes and markers of a catalog *)




Section CatalogFacts.

Context {E : Engine}.






Lemma markers_loop_spec (state : value) (fallas : list Falla) :
  forall markers ms,
    markers_loop state fallas markers = Return ms ->
    exists made,
      ms = markers ++ made /\
      map (fun m => (mk_lat m, mk_lng m, mk_falla_number m, mk_section m)) made
      = map (fun f => (coordinate (lat f), coordinate (lng f),
                       ToNumber (falla_number f), section f))
            (filter placeable fallas) /\
      forall m, In m made ->
        exists cur v,
          cur_of state (keyForFallaNumber (VNumber (mk_falla_number m)))
          = Return cur /\
          getprop cur "visited" = Return v /\ mk_visited m = ToBoolean v.
Proof.
  induction fallas as [|f fallas IH]; intros markers ms H.
  - simpl in H. injection H as <-. exists []. rewrite app_nil_r.
    repeat split. intros m [].
  - simpl in H. unfold placeable. cbn [filter].
    destruct (isFinite (coordinate (lat f))) eqn:F1; simpl in H;
      [|simpl; now apply IH].
    destruct (isFinite (coordinate (lng f))) eqn:F2; simpl in H;
      [|simpl; now apply IH].
    destruct (isFinite (ToNumber (falla_number f))) eqn:F3; simpl in H;
      [|simpl; now apply IH].
    destruct (cur_of _ _) as [cur|] eqn:C; simpl in H; [|discriminate].
    destruct (getprop cur _) as [v|] eqn:G; simpl in H; [|discriminate].
    destruct (normalizeSection _); simpl in H; [|discriminate].
    destruct (IH _ _ H) as (made & -> & Hd & Hv).
    eexists (_ :: made). rewrite <- app_assoc. split; [reflexivity|].
    split; [simpl; now rewrite Hd|].
    intros m [<-|Hm]; [|now apply Hv]. simpl. eauto.
Qed.

(** X20: the markers are those of the records that convert: when
    [renderMarkers] returns, it has made one marker for each record whose
    [lat], [lng] and [falla_number] convert to finite numbers, in the order
    of the list, at the converted position, with that number and the
    section of the record, and drawn as visited exactly when the state
    holds a truthy [visited] for its key. *)
Theorem markers_of_placeable_records (ls : storage) (fallas : list Falla)
        (ms : list Marker) :
  renderMarkers ls fallas = Return ms ->
  map (fun m => (mk_lat m, mk_lng m, mk_falla_number m, mk_section m)) ms
  = map (fun f => (coordinate (lat f), coordinate (lng f),
                   ToNumber (falla_number f), section f))
        (filter placeable fallas) /\
  forall m, In m ms ->
    exists state cur v,
      loadState ls = Return state /\
      cur_of state (keyForFallaNumber (VNumber (mk_falla_number m)))
      = Return cur /\
      getprop cur "visited" = Return v /\ mk_visited m = ToBoolean v.
Proof.
  unfold renderMarkers. intros H.
  destruct (loadState ls) as [state|]; simpl in H; [|discriminate].
  destruct (markers_loop_spec _ _ _ H) as (made & -> & Hd & Hv).
  split; [exact Hd|]. intros m Hm.
  destruct (Hv m Hm) as (cur & v & H1 & H2 & H3). now exists state, cur, v.
Qed.


End CatalogFacts.

Lemma markers_of_placeable_records_witness :
  renderMarkers (E := ascii_engine) sample_store (malformed_falla :: sample_catalog)
  = Return [ {| mk_lat := Fin (3947 # 100); mk_lng := Fin (- (37 # 100));
                mk_visited := true; mk_falla_number := Fin 1;
                mk_section := VString "B" |};
             {| mk_lat := Fin (3948 # 100); mk_lng := Fin (- (38 # 100));
                mk_visited := false; mk_falla_number := Fin 2;
                mk_section := VString "A" |};
             {| mk_lat := Fin (3945 # 100); mk_lng := Fin (- (33 # 100));
                mk_visited := false; mk_falla_number := Fin 3;
                mk_section := VString "B" |} ] /\
  List.length (filter (placeable (E := ascii_engine))
                      (malformed_falla :: sample_catalog)) = 3%nat.
Proof.
  split; [reflexivity|].
  pose proof (proj1 (@markers_of_placeable_records ascii_engine sample_store
                       (malformed_falla :: sample_catalog) _ eq_refl)) as H.
  apply (f_equal (@List.length _)) in H. rewrite !length_map in H.
  now rewrite <- H.
Defined.


(** ** The route request *)

Lemma filter_r_spec {A : Type} (p : A -> result bool) (l : list A) :
  forall l', filter_r p l = Return l' ->
    (forall x, In x l' -> In x l /\ p x = Return true) /\
    (List.length l' <= List.length l)%nat.
Proof.
  induction l as [|x l IH]; intros l' H; simpl in H.
  - injection H as <-. split; [intros x []|trivial].
  - destruct (p x) as [b|] eqn:P; simpl in H; [|discriminate].
    destruct (filter_r p l) as [r|]; simpl in H; [|discriminate].
    injection H as <-. destruct (IH r eq_refl) as [H1 H2].
    destruct b; simpl; split; try lia.
    + intros y [<-|Hy]; [auto|]. destruct (H1 y Hy). auto.
    + intros y Hy. destruct (H1 y Hy). auto.
Qed.

Lemma getOrigin_None (s : Session) :
  getOrigin s = None <-> startMarker s = None /\ userMarker s = None.
Proof.
  unfold getOrigin.
  destruct (startMarker s) as [[la lo]|], (userMarker s) as [[la' lo']|];
    split; try discriminate; try tauto; intros [H1 H2]; discriminate.
Qed.

Section PlanningFacts.

Context {E : Engine}.
Variable distanceMeters : Place -> Place -> number.

Lemma budget_finite_positive (timeEl speedEl : option value) :
  isFinite (maxMeters (getRouteBudgetMeters timeEl speedEl)) = true /\
  num_gt (maxMeters (getRouteBudgetMeters timeEl speedEl)) zero = true.
Proof.
  destruct (budget_range timeEl speedEl) as (m & k & _ & Hm & _ & Hk & Hx).
  cbv zeta in Hx. rewrite Hx. split; [reflexivity|]. apply num_lt_Fin.
  assert (Hs : (100 # 3 <= k * 1000 / 60)%Q).
  { unfold Qdiv. change (/ 60)%Q with (1 # 60)%Q. lra. }
  set (v := (k * 1000 / 60)%Q) in *. nra.
Qed.

(** X22: a route that is drawn starts at the origin of the session (the
    chosen start before the position), has at least one stop, stops only
    at points of markers on the map, each at most once, and uses no more
    meters than the budget of the two fields; the line drawn goes from the
    origin through the stops in order; and with "ignore visited" checked,
    no stop has a truthy [visited] in the stored state. *)
Theorem route_request_drawn (s : Session) (timeEl speedEl : option value)
        (ignoreVisitedChk : option bool) (ls : storage) (markers : list Marker)
        (origin : Place) (stops : list Place) (line : list (number * number))
        (used estMin : number) :
  buildRoute distanceMeters s timeEl speedEl ignoreVisitedChk ls markers
  = Return (Drawn origin stops line used estMin) ->
  getOrigin s = Some origin /\
  stops <> [] /\
  (forall p, In p stops -> exists m, In m markers /\ p = point_of m) /\
  (List.length stops <= List.length markers)%nat /\
  num_gt used (maxMeters (getRouteBudgetMeters timeEl speedEl)) = false /\
  line = (p_lat origin, p_lng origin) :: map (fun p => (p_lat p, p_lng p)) stops /\
  (checked ignoreVisitedChk = true ->
   exists state, loadState ls = Return state /\
                 forall p, In p stops -> not_visited state p = Return true).
Proof.
  unfold buildRoute. intros H.
  destruct (getOrigin s) as [o|]; [|discriminate].
  destruct (loadState_returns ls) as [state Hl]. rewrite Hl in H.
  cbn [bind] in H.
  set (b := getRouteBudgetMeters timeEl speedEl) in *.
  destruct (if checked ignoreVisitedChk
            then filter_r (not_visited state) (map point_of markers)
            else Return (map point_of markers)) as [points|] eqn:P;
    cbn [bind] in H; [|discriminate].
  destruct points as [|pt points]; [discriminate|].
  pose proof (route_remaining_perm distanceMeters o (pt :: points) (maxMeters b))
    as Perm.
  pose proof (used_not_over distanceMeters o (pt :: points) (maxMeters b)
                (proj1 (budget_finite_positive timeEl speedEl))
                (proj2 (budget_finite_positive timeEl speedEl))) as Hu.
  cbv zeta in Perm.
  set (r := buildOptimizedRoute distanceMeters o (pt :: points) (maxMeters b)) in *.
  change (l_route (route_end distanceMeters o (pt :: points) (maxMeters b)))
    with (route r) in Perm.
  change (l_usedMeters (route_end distanceMeters o (pt :: points) (maxMeters b)))
    with (usedMeters r) in Hu.
  destruct (route r) as [|st sts] eqn:R; [discriminate|].
  injection H as <- <- <- <- <-.
  assert (Hin : forall p, In p (st :: sts) -> In p (pt :: points)).
  { intros p Hp. eapply Permutation_in; [exact Perm|].
    apply in_or_app. now left. }
  assert (Hlen : (List.length (st :: sts) <= List.length (pt :: points))%nat).
  { apply Permutation_length in Perm. rewrite length_app in Perm. lia. }
  assert (Hpts : (forall p, In p (pt :: points) -> In p (map point_of markers)) /\
                 (List.length (pt :: points) <= List.length markers)%nat /\
                 (checked ignoreVisitedChk = true ->
                  forall p, In p (pt :: points) ->
                            not_visited state p = Return true)).
  { destruct (checked ignoreVisitedChk).
    - destruct (filter_r_spec _ _ P) as [H1 H2]. rewrite length_map in H2.
      repeat split; trivial; intros; now apply H1.
    - injection P as P. rewrite <- P, length_map.
      repeat split; trivial. discriminate. }
  destruct Hpts as (Hp1 & Hp2 & Hp3).
  repeat split; trivial.
  - discriminate.
  - intros p Hp. apply Hin, Hp1, in_map_iff in Hp.
    destruct Hp as (m & <- & Hm). now exists m.
  - lia.
  - intros C. exists state. split; trivial. intros p Hp. apply Hp3; auto.
Qed.

(** X23: how a request without "ignore visited" ends: it never throws;
    it ends without origin exactly when the session has neither a chosen
    start nor a position, and without points exactly when there is an
    origin and no marker on the map. *)
Theorem route_request_outcomes (s : Session) (timeEl speedEl : option value)
        (ignoreVisitedChk : option bool) (ls : storage) (markers : list Marker) :
  checked ignoreVisitedChk = false ->
  exists out,
    buildRoute distanceMeters s timeEl speedEl ignoreVisitedChk ls markers
    = Return out /\
    (out = NoOrigin <-> startMarker s = None /\ userMarker s = None) /\
    (out = NoPoints <->
     (startMarker s <> None \/ userMarker s <> None) /\ markers = []).
Proof.
  intros C. unfold buildRoute. rewrite C.
  destruct (loadState_returns ls) as [state ->].
  pose proof (getOrigin_None s) as Ho.
  destruct (getOrigin s) as [o|].
  - assert (Hs : startMarker s <> None \/ userMarker s <> None).
    { destruct (startMarker s); [left; discriminate|].
      destruct (userMarker s); [right; discriminate|].
      destruct Ho as [_ Ho]. now discriminate Ho. }
    assert (Hn : ~ (startMarker s = None /\ userMarker s = None)).
    { intros H. apply Ho in H. discriminate. }
    cbn [bind]. destruct markers as [|m markers]; cbn [map].
    + exists NoPoints. split; [reflexivity|].
      split; split; try discriminate; tauto.
    + destruct (route _); eexists; (split; [reflexivity|]);
        (split; split; try discriminate; try tauto);
        intros [_ H]; discriminate.
  - exists NoOrigin. split; [reflexivity|].
    split; split; try discriminate; tauto.
Qed.

End PlanningFacts.

Lemma route_request_drawn_witness :
  buildRoute (E := ascii_engine) flat_distance sample_session
             (Some (VString "1")) (Some (VString "6")) (Some true)
             sample_store sample_markers
  = Return (Drawn {| p_lat := Fin 0; p_lng := Fin 0;
                     p_falla_number := VUndefined;
                     p_label := VString "📍 GPS" |}
                  [point_of {| mk_lat := Fin 30; mk_lng := Fin 0;
                               mk_visited := false; mk_falla_number := Fin 2;
                               mk_section := VString "A" |}]
                  [(Fin 0, Fin 0); (Fin 30, Fin 0)]
                  (Fin 30) (Fin 0)) /\
  num_gt (Fin 30)
         (maxMeters (getRouteBudgetMeters (E := ascii_engine)
                       (Some (VString "1")) (Some (VString "6")))) = false.
Proof.
  split; [reflexivity|].
  exact (proj1 (proj2 (proj2 (proj2 (proj2
           (@route_request_drawn ascii_engine flat_distance sample_session
              (Some (VString "1")) (Some (VString "6")) (Some true)
              sample_store sample_markers _ _ _ _ _ eq_refl)))))).
Defined.

Lemma route_request_outcomes_witness :
  checked None = false /\
  exists out,
    buildRoute (E := ascii_engine) flat_distance sample_session
               None None None sample_store [] = Return out /\
    (out = NoPoints <->
     (startMarker sample_session <> None \/ userMarker sample_session <> None)
     /\ @nil Marker = []).
Proof.
  split; [reflexivity|].
  destruct (@route_request_outcomes ascii_engine flat_distance sample_session
              None None None sample_store [] eq_refl) as (out & H1 & _ & H2).
  exists out. auto.
Defined.

(** ** Re-saving a rating, the last section, the time estimated *)

Lemma round_integer (k : Z) : Qfloor (inject_Z k + (1 # 2)) = k.
Proof.
  apply Z.le_antisymm.
  - apply Z.lt_succ_r. rewrite Zlt_Qlt.
    eapply Qle_lt_trans; [apply Qfloor_le|].
    unfold Z.succ. rewrite inject_Z_plus. change (inject_Z 1) with 1%Q. lra.
  - rewrite <- (Qfloor_Z k) at 1. apply Qfloor_resp_le. lra.
Qed.

(** X24: a rating that was written is written again as it is: clamping
    what [clampInt] gave changes nothing. *)
Theorem rating_saved_again (E : Engine) (n : value) :
  clampInt (VNumber (clampInt n zero (Fin 10) zero)) zero (Fin 10) zero
  = clampInt n zero (Fin 10) zero.
Proof.
  destruct (clampInt_range n) as (k & Hk & ->).
  rewrite (@clampInt_finite E (VNumber (Fin (inject_Z k))) (inject_Z k) eq_refl).
  rewrite round_integer. do 2 f_equal. lia.
Qed.

(** X25: unchecking the last checked section checks them all again: the
    selection is "ALL", the box "Todas" is checked, and so is every
    section box; and no click on a section box leaves an empty
    selection. *)
Theorem last_section_unchecked_selects_all (i : nat) (c : Controls) :
  (forallb (fun cb => negb (snd cb)) (toggle i (sec_cbs c)) = true ->
   getSelectedSections (click_section i c) = ALL /\
   sec_all (click_section i c) = true /\
   forall s b, In (s, b) (sec_cbs (click_section i c)) -> b = true) /\
  getSelectedSections (click_section i c) <> Selected [].
Proof.
  split; [|apply click_section_not_empty].
  intros H. unfold click_section, on_section_change. simpl. rewrite H.
  split; [|split; trivial].
  - apply selected_all_iff. simpl.
    induction (toggle i (sec_cbs c)) as [|x l IH]; simpl; trivial.
    simpl in H. apply andb_true_iff in H. now apply IH.
  - simpl. intros s b Hin. unfold set_checkboxes in Hin.
    apply in_map_iff in Hin. destruct Hin as (x & Hx & _). congruence.
Qed.

Section EstimateFacts.

Context {E : Engine}.
Variable distanceMeters : Place -> Place -> number.


End EstimateFacts.


